(** * ChatInterface: the message-exchange and persistence flow

    A shallow embedding of [src/components/ChatInterface.tsx]: the string
    primitives the component calls, the scripted response generator
    [generateAIResponse], and the conversation controller ([loadMessages],
    [saveMessage], [sendMessage]) as an event-driven state machine whose
    steps are the synchronous stretches of code between two [await]s. *)

From Stdlib Require Import Bool Arith ZArith NArith QArith Qround Lia List.
From Stdlib Require Import Ascii String Sorted Permutation.
Import ListNotations.

Close Scope Q_scope.
Open Scope string_scope.
Open Scope bool_scope.

(* ================================================================== *)
(** ** String primitives of the host language

    Strings are sequences of code units.  The embedding covers the code
    units below 256 (Basic Latin and Latin-1), for which case mapping is
    one unit to one unit and [length] counts characters. *)

Module JS.

Definition between (lo hi n : N) : bool := (lo <=? n)%N && (n <=? hi)%N.

(** Upper-case letters: A-Z, and the Latin-1 capitals except the
    multiplication sign at 215. *)
Definition is_upper (c : ascii) : bool :=
  let n := N_of_ascii c in
  between 65 90 n || between 192 214 n || between 216 222 n.

Definition lower_unit (c : ascii) : ascii :=
  if is_upper c then ascii_of_N (N_of_ascii c + 32) else c.

(** [String.prototype.toLowerCase] *)
Fixpoint toLowerCase (s : string) : string :=
  match s with
  | EmptyString => EmptyString
  | String c s' => String (lower_unit c) (toLowerCase s')
  end.

(** White space and line terminators stripped by [trim]: TAB, LF, VT,
    FF, CR, SPACE and the no-break space. *)
Definition is_space (c : ascii) : bool :=
  let n := N_of_ascii c in
  between 9 13 n || (n =? 32)%N || (n =? 160)%N.

Fixpoint trimStart (s : string) : string :=
  match s with
  | EmptyString => EmptyString
  | String c s' => if is_space c then trimStart s' else s
  end.

Fixpoint trimEnd (s : string) : string :=
  match s with
  | EmptyString => EmptyString
  | String c s' =>
      match trimEnd s' with
      | EmptyString => if is_space c then EmptyString else String c EmptyString
      | r => String c r
      end
  end.

(** [String.prototype.trim] *)
Definition trim (s : string) : string := trimEnd (trimStart s).

(** [String.prototype.includes]: [t] occurs in [s] at some position. *)
Fixpoint includes (s t : string) : bool :=
  prefix t s ||
  match s with
  | EmptyString => false
  | String _ s' => includes s' t
  end.

(** Truthiness of a string value: only the empty string is falsy. *)
Definition truthy (s : string) : bool := negb (s =? "").

(** A string made of white space only (the empty string included). *)
Fixpoint blank (s : string) : bool :=
  match s with
  | EmptyString => true
  | String c s' => is_space c && blank s'
  end.

(** [Math.floor] on the rational model of a number. *)
Definition Math_floor (x : Q) : Z := Qfloor x.

(** Array indexing [a[i]]: [undefined] outside the array. *)
Definition index {A} (a : list A) (i : Z) : option A :=
  if (i <? 0)%Z then None else nth_error a (Z.to_nat i).

(** Interpolation of a possibly undefined string in a template literal. *)
Definition interpolate (v : option string) : string :=
  match v with
  | Some s => s
  | None => "undefined"
  end.

End JS.

(* ================================================================== *)
(** ** The response generator *)

Definition responses : list string :=
  [ "That's an interesting question! Let me think about that...";
    "I understand what you're asking. Here's my perspective on that:";
    "Great question! Based on what you've shared, I would suggest:";
    "That's a thoughtful inquiry. Let me provide some insights:";
    "I appreciate you asking that. Here's what I think:" ].

Definition greeting_reply : string :=
  "Hello! I'm your AI assistant. How can I help you today?".

Definition wellbeing_reply : string :=
  "I'm doing well, thank you for asking! I'm here and ready to help with any questions or tasks you have.".

Definition capability_reply : string :=
  "I can help you with a wide variety of tasks including answering questions, providing explanations, helping with creative writing, solving problems, and having conversations on many topics. What would you like to explore?".

Definition detailed_clause : string :=
  "You've shared quite a detailed message, and I appreciate the context.".

Definition short_clause : string :=
  "Thanks for sharing that with me.".

(** [generateAIResponse], with the value [random] returned by the one
    call of [Math.random()] made explicit. *)
Definition generateAIResponse (random : Q) (userMessage : string) : string :=
  let randomResponse :=
    JS.index responses
      (JS.Math_floor (random * inject_Z (Z.of_nat (List.length responses)))%Q) in
  if JS.includes (JS.toLowerCase userMessage) "hello"
     || JS.includes (JS.toLowerCase userMessage) "hi"
  then greeting_reply
  else if JS.includes (JS.toLowerCase userMessage) "how are you"
  then wellbeing_reply
  else if JS.includes (JS.toLowerCase userMessage) "what can you do"
  then capability_reply
  else
    JS.interpolate randomResponse ++ " " ++
    (if Nat.ltb 50 (String.length userMessage) then detailed_clause else short_clause).

(** The input matches none of the trigger phrases. *)
Definition no_trigger (userMessage : string) : bool :=
  let m := JS.toLowerCase userMessage in
  negb (JS.includes m "hello") && negb (JS.includes m "hi")
  && negb (JS.includes m "how are you")
  && negb (JS.includes m "what can you do").

(* ================================================================== *)
(** ** Data model *)

Inductive Role := role_user | role_assistant.

(** [interface Message] *)
Record Message := mkMessage {
  id : string;
  role : Role;
  content : string;
  created_at : string
}.

(** A record of the table [messages]: a message and the user it belongs
    to ([user_id] is null when the insertion carried no user). *)
Record Row := mkRow {
  user_id : option string;
  message : Message
}.

(* ================================================================== *)
(** ** The persistent store (external collaborator)

    The component reaches the store through two requests only.  What the
    store holds, which rows it lets a session see and how it orders the
    [created_at] column are the store's own business: they are fields of
    the store, not code of the component. *)

Inductive Request :=
| SelectOrdered
    (* from('messages').select('*').order('created_at', { ascending: true }) *)
| Insert (owner : option string) (r : Role) (c : string).
    (* from('messages').insert({ user_id, role, content }).select().single() *)

Record Store := mkStore {
  rows : list Row;
  (** row-level access rule: may the session of this user read the row? *)
  visible : option string -> Row -> bool;
  (** the order of the [created_at] column *)
  created_le : string -> string -> bool
}.

Definition row_le (s : Store) (a b : Row) : bool :=
  created_le s (created_at (message a)) (created_at (message b)).

Fixpoint insert_sorted (le : Row -> Row -> bool) (x : Row) (l : list Row)
  : list Row :=
  match l with
  | [] => [x]
  | y :: l' => if le x y then x :: l else y :: insert_sorted le x l'
  end.

Fixpoint order_by (le : Row -> Row -> bool) (l : list Row) : list Row :=
  match l with
  | [] => []
  | x :: l' => insert_sorted le x (order_by le l')
  end.

(** The rows the store returns to [session] for [SelectOrdered]. *)
Definition select_rows (s : Store) (session : option string) : list Row :=
  order_by (row_le s) (filter (visible s session) (rows s)).

Definition store_insert (s : Store) (r : Row) : Store :=
  mkStore (rows s ++ [r]) (visible s) (created_le s).

(** What the store does with a request: it fails, or it serves it; when it
    serves an insertion it assigns the identifier and the timestamp. *)
Inductive Fate :=
| Fault
| Served (new_id new_created_at : string).

(** [{ data, error }] of the select. *)
Record SelectResponse := mkSelectResponse {
  select_data : option (list Message);
  select_error : bool
}.

(** Result of the insert followed by [.select().single()]: the row or an
    error. *)
Inductive InsertResponse :=
| InsertError
| InsertData (m : Message).

(* ================================================================== *)
(** ** The conversation controller *)

Record Toast := mkToast {
  title : string;
  description : string;
  variant : string
}.

(** An asynchronous call suspended at its [await]. *)
Inductive Pending :=
| AwaitLoad                                  (* loadMessages, at the select *)
| AwaitSaveUser (userMessage : string)       (* sendMessage, first saveMessage *)
| AwaitSaveAssistant (aiResponse : string).  (* sendMessage, second saveMessage *)

Record World := mkWorld {
  (* component state *)
  messages : list Message;
  input : string;
  loading : bool;
  loadingMessages : bool;
  (* useAuth(): the id of the signed-in user, if any *)
  user : option string;
  (* observable effects *)
  toasts : list Toast;
  console : list string;
  (* the store, the requests sent to it so far, the suspended calls *)
  store : Store;
  calls : list Request;
  inflight : list Pending;
  (* values the coming calls of Math.random() return *)
  entropy : list Q
}.

Definition setMessages (f : list Message -> list Message) (w : World) : World :=
  mkWorld (f (messages w)) (input w) (loading w) (loadingMessages w) (user w)
    (toasts w) (console w) (store w) (calls w) (inflight w) (entropy w).

Definition setInput (v : string) (w : World) : World :=
  mkWorld (messages w) v (loading w) (loadingMessages w) (user w)
    (toasts w) (console w) (store w) (calls w) (inflight w) (entropy w).

Definition setLoading (b : bool) (w : World) : World :=
  mkWorld (messages w) (input w) b (loadingMessages w) (user w)
    (toasts w) (console w) (store w) (calls w) (inflight w) (entropy w).

Definition setLoadingMessages (b : bool) (w : World) : World :=
  mkWorld (messages w) (input w) (loading w) b (user w)
    (toasts w) (console w) (store w) (calls w) (inflight w) (entropy w).

Definition toast (t : Toast) (w : World) : World :=
  mkWorld (messages w) (input w) (loading w) (loadingMessages w) (user w)
    (toasts w ++ [t]) (console w) (store w) (calls w) (inflight w) (entropy w).

Definition console_error (msg : string) (w : World) : World :=
  mkWorld (messages w) (input w) (loading w) (loadingMessages w) (user w)
    (toasts w) (console w ++ [msg]) (store w) (calls w) (inflight w) (entropy w).

Definition set_store (s : Store) (w : World) : World :=
  mkWorld (messages w) (input w) (loading w) (loadingMessages w) (user w)
    (toasts w) (console w) s (calls w) (inflight w) (entropy w).

Definition set_inflight (l : list Pending) (w : World) : World :=
  mkWorld (messages w) (input w) (loading w) (loadingMessages w) (user w)
    (toasts w) (console w) (store w) (calls w) l (entropy w).

Definition set_entropy (l : list Q) (w : World) : World :=
  mkWorld (messages w) (input w) (loading w) (loadingMessages w) (user w)
    (toasts w) (console w) (store w) (calls w) (inflight w) l.

(** Send a request to the store and suspend the caller on it. *)
Definition await (q : Request) (k : Pending) (w : World) : World :=
  mkWorld (messages w) (input w) (loading w) (loadingMessages w) (user w)
    (toasts w) (console w) (store w) (calls w ++ [q]) (inflight w ++ [k])
    (entropy w).

Definition load_failed : Toast :=
  mkToast "Error" "Failed to load messages" "destructive".

Definition send_failed : Toast :=
  mkToast "Error" "Failed to send message" "destructive".

(** *** loadMessages *)

Definition loadMessages (w : World) : World :=
  await SelectOrdered AwaitLoad w.

(** The rest of [loadMessages] once the select has answered. *)
Definition loadMessages_resume (resp : SelectResponse) (w : World) : World :=
  let w1 :=
    if select_error resp then
      toast load_failed (console_error "Error loading messages:" w)
    else
      setMessages (fun _ => match select_data resp with
                            | Some data => data
                            | None => []
                            end) w in
  setLoadingMessages false w1.

(** *** saveMessage *)

Definition saveMessage (r : Role) (c : string) (k : Pending) (w : World)
  : World :=
  await (Insert (user w) r c) k w.

(** The [catch] of [saveMessage]: log, then throw again. *)
Definition saveMessage_catch (w : World) : World :=
  console_error "Error saving message:" w.

(** *** sendMessage *)

(** The [catch] and [finally] of [sendMessage]. *)
Definition sendMessage_catch (w : World) : World :=
  toast send_failed (console_error "Error sending message:" w).

Definition sendMessage_finally (w : World) : World :=
  setLoading false w.

Definition sendMessage (w : World) : World :=
  if negb (JS.truthy (JS.trim (input w))) || loading w then w
  else
    let userMessage := JS.trim (input w) in
    let w1 := setInput "" w in
    let w2 := setLoading true w1 in
    saveMessage role_user userMessage (AwaitSaveUser userMessage) w2.

(** One call of [Math.random()]. *)
Definition Math_random (w : World) : Q * World :=
  match entropy w with
  | [] => (0%Q, w)
  | r :: rest => (r, set_entropy rest w)
  end.

(** After the first [saveMessage]. *)
Definition sendMessage_resume_user (userMessage : string)
  (resp : InsertResponse) (w : World) : World :=
  match resp with
  | InsertError =>
      sendMessage_finally (sendMessage_catch (saveMessage_catch w))
  | InsertData userMsg =>
      let w1 := setMessages (fun prev => (prev ++ [userMsg])%list) w in
      let (random, w2) := Math_random w1 in
      let aiResponse := generateAIResponse random userMessage in
      saveMessage role_assistant aiResponse (AwaitSaveAssistant aiResponse) w2
  end.

(** After the second [saveMessage]. *)
Definition sendMessage_resume_assistant (resp : InsertResponse) (w : World)
  : World :=
  match resp with
  | InsertError =>
      sendMessage_finally (sendMessage_catch (saveMessage_catch w))
  | InsertData assistantMsg =>
      sendMessage_finally
        (setMessages (fun prev => (prev ++ [assistantMsg])%list) w)
  end.

(** *** The store answering a suspended call *)

Definition serve_select (f : Fate) (w : World) : SelectResponse :=
  match f with
  | Fault => mkSelectResponse None true
  | Served _ _ =>
      mkSelectResponse
        (Some (map message (select_rows (store w) (user w)))) false
  end.

Definition serve_insert (f : Fate) (r : Role) (c : string) (w : World)
  : InsertResponse * World :=
  match f with
  | Fault => (InsertError, w)
  | Served new_id new_created_at =>
      let m := mkMessage new_id r c new_created_at in
      (InsertData m, set_store (store_insert (store w) (mkRow (user w) m)) w)
  end.

Fixpoint remove_nth {A} (i : nat) (l : list A) : list A :=
  match l, i with
  | [], _ => []
  | _ :: l', O => l'
  | x :: l', S i' => x :: remove_nth i' l'
  end.

Definition resume (p : Pending) (f : Fate) (w : World) : World :=
  match p with
  | AwaitLoad => loadMessages_resume (serve_select f w) w
  | AwaitSaveUser userMessage =>
      let (resp, w1) := serve_insert f role_user userMessage w in
      sendMessage_resume_user userMessage resp w1
  | AwaitSaveAssistant aiResponse =>
      let (resp, w1) := serve_insert f role_assistant aiResponse w in
      sendMessage_resume_assistant resp w1
  end.

(** *** Events

    The component runs on one thread: a handler or the continuation of an
    [await] runs to its next [await] without interruption, and the state
    updates it made are committed (and the handlers re-created over them)
    before the next event is handled. One [step] is one such stretch. *)

Inductive Event :=
| Mount                          (* useEffect(() => { loadMessages() }, []) *)
| Change (value : string)        (* onChange of the input *)
| Submit                         (* click on the button, or Enter *)
| Resolve (i : nat) (f : Fate).  (* the store answers the i-th suspended call *)

(** The input element is rendered once the messages are loaded and is
    disabled while [loading]. *)
Definition input_enabled (w : World) : bool :=
  negb (loadingMessages w) && negb (loading w).

Definition step (e : Event) (w : World) : World :=
  match e with
  | Mount => loadMessages w
  | Change value => if input_enabled w then setInput value w else w
  | Submit => sendMessage w
  | Resolve i f =>
      match nth_error (inflight w) i with
      | None => w
      | Some p => resume p f (set_inflight (remove_nth i (inflight w)) w)
      end
  end.

Fixpoint run (es : list Event) (w : World) : World :=
  match es with
  | [] => w
  | e :: es' => run es' (step e w)
  end.

(** The component as first rendered. *)
Definition initial (u : option string) (s : Store) (rnd : list Q) : World :=
  mkWorld [] "" false true u [] [] s [] [] rnd.

(** Sends that have started and not finished. *)
Definition is_send (p : Pending) : bool :=
  match p with
  | AwaitLoad => false
  | AwaitSaveUser _ | AwaitSaveAssistant _ => true
  end.

Definition outstanding_sends (w : World) : nat :=
  List.length (filter is_send (inflight w)).

(** The draw the next call of [Math.random()] returns. *)
Definition next_random (w : World) : Q := fst (Math_random w).

(** The messages the two insertions of a send create, given what the
    store assigns to them. *)
Definition user_message (w : World) (new_id new_created_at : string) : Message :=
  mkMessage new_id role_user (JS.trim (input w)) new_created_at.

Definition assistant_message (w : World) (new_id new_created_at : string)
  : Message :=
  mkMessage new_id role_assistant
    (generateAIResponse (next_random w) (JS.trim (input w))) new_created_at.

(** The rows that belong to user [u], in the words of the specification:
    the row carries the id of the signed-in user. *)
Definition owned_by (u : option string) (r : Row) : bool :=
  match u, user_id r with
  | Some a, Some b => (a =? b)%string
  | _, _ => false
  end.

(** Ascending order of the [created_at] column, on messages. *)
Definition ascending (s : Store) (a b : Message) : Prop :=
  created_le s (created_at a) (created_at b) = true.

(** A store without row-level access rule, whose timestamps compare as
    text. *)
Definition open_store (l : list Row) : Store :=
  mkStore l (fun _ _ => true) String.leb.

(** A store that lets a session read the rows of its own user only. *)
Definition owner_only_store (l : list Row) : Store :=
  mkStore l owned_by String.leb.

(** [loading] is set exactly while one send is suspended on the store. *)
Definition single_flight (w : World) : Prop :=
  outstanding_sends w = if loading w then 1 else 0.

(** While a send is in flight the input field stays empty. *)
Definition cleared_while_loading (w : World) : Prop :=
  loading w = true -> input w = "".

(* ================================================================== *)
(** ** The rest of the component: key handler, rendering, mounting *)

(** Every reply the generator can give: the three canned replies, and
    each opener followed by one of the two clauses. *)
Definition fallback_replies : list string :=
  flat_map (fun opener => [opener ++ " " ++ short_clause;
                           opener ++ " " ++ detailed_clause]) responses.

Definition possible_replies : list string :=
  ([greeting_reply; wellbeing_reply; capability_reply] ++ fallback_replies)%list.

(** The part of a [React.KeyboardEvent] that [handleKeyPress] reads. *)
Record KeyboardEvent := mkKeyboardEvent {
  key : string;
  shiftKey : bool
}.

(** [handleKeyPress]: the result says whether [preventDefault] was called. *)
Definition handleKeyPress (e : KeyboardEvent) (w : World) : bool * World :=
  if (key e =? "Enter") && negb (shiftKey e)
  then (true, sendMessage w)
  else (false, w).

(** What the component renders. The header (title, sign-out button) and
    the static markup carry no state of the component and are left out. *)
Inductive Justify := justify_end | justify_start.

Inductive Icon := BotIcon | UserIcon.

Record Bubble := mkBubble {
  bubble_key : string;
  justify : Justify;
  card_class : string;
  icon : Icon;
  text : string
}.

Inductive MessagesArea :=
| Placeholder                  (* "Start a conversation by typing ..." *)
| Bubbles (l : list Bubble).

Record Chat := mkChat {
  area : MessagesArea;
  typing_indicator : bool;
  input_value : string;
  input_disabled : bool;
  button_disabled : bool
}.

Inductive Screen :=
| LoadingMessagesScreen        (* "Loading messages..." *)
| ChatScreen (c : Chat).

Definition render_message (m : Message) : Bubble :=
  match role m with
  | role_user =>
      mkBubble (id m) justify_end "bg-blue-500 text-white" UserIcon (content m)
  | role_assistant =>
      mkBubble (id m) justify_start "bg-white" BotIcon (content m)
  end.

Definition render (w : World) : Screen :=
  if loadingMessages w then LoadingMessagesScreen
  else
    ChatScreen
      (mkChat
         (if List.length (messages w) =? 0 then Placeholder
          else Bubbles (map render_message (messages w)))%nat
         (loading w)
         (input w)
         (loading w)
         (loading w || negb (JS.truthy (JS.trim (input w))))).





(** *** Vocabulary of the properties *)

(** A request the component may send on behalf of user [u]: an insertion
    carries [u], its content is not empty, and the text of a user message
    has no white space left around it. *)
Definition request_ok (u : option string) (q : Request) : Prop :=
  match q with
  | SelectOrdered => True
  | Insert o r c => o = u /\ c <> "" /\ (r = role_user -> JS.trim c = c)
  end.

(** [m] may come right after [prev] in what a conversation adds to the
    store: a reply answers the user message just before it. *)
Definition reply_to (prev : option Message) (m : Message) : Prop :=
  match role m with
  | role_user => True
  | role_assistant =>
      match prev with
      | Some q =>
          role q = role_user /\
          exists random, content m = generateAIResponse random (content q)
      | None => False
      end
  end.

Fixpoint replies_follow (prev : option Message) (l : list Message) : Prop :=
  match l with
  | [] => True
  | m :: l' => reply_to prev m /\ replies_follow (Some m) l'
  end.

Fixpoint last_before (prev : option Message) (l : list Message)
  : option Message :=
  match l with
  | [] => prev
  | m :: l' => last_before (Some m) l'
  end.

Definition ids (l : list Message) : list string := map id l.

Definition stored (w : World) : list Message := map message (rows (store w)).

(** The store gives each insertion of the run an identifier that no row
    has yet. *)
Fixpoint fresh_ids (es : list Event) (w : World) : Prop :=
  match es with
  | [] => True
  | e :: es' =>
      match e with
      | Resolve i (Served new_id _) =>
          match nth_error (inflight w) i with
          | Some (AwaitSaveUser _) | Some (AwaitSaveAssistant _) =>
              ~ In new_id (ids (stored w))
          | _ => True
          end
      | _ => True
      end /\ fresh_ids es' (step e w)
  end.

(** No event of the run is a failure of the store. *)
Definition no_fault (e : Event) : bool :=
  match e with
  | Resolve _ Fault => false
  | _ => true
  end.

(** What holds of the rows added to [rows0] so far: replies follow their
    message, and a reply waiting to be stored answers the last row. *)
Definition paired (rows0 : list Row) (w : World) : Prop :=
  exists added,
    rows (store w) = (rows0 ++ added)%list /\
    replies_follow None (map message added) /\
    forall a, In (AwaitSaveAssistant a) (inflight w) ->
      exists q, last_before None (map message added) = Some q /\
                role q = role_user /\
                exists random, a = generateAIResponse random (content q).

(** While the first load is pending nothing else has happened: the state
    is the initial one but for the selects sent to store [s]. *)
Definition idle_until_loaded (s : Store) (w : World) : Prop :=
  loadingMessages w = true ->
  input w = "" /\ messages w = [] /\ loading w = false /\ store w = s /\
  toasts w = [] /\
  Forall (fun p => p = AwaitLoad) (inflight w) /\
  Forall (fun q => q = SelectOrdered) (calls w).

(** The event is not a (re)mount of the component. *)
Definition not_mount (e : Event) : bool :=
  match e with
  | Mount => false
  | _ => true
  end.

(* ================================================================== *)
(** * Properties *)

(** ** Strings *)

Lemma toLowerCase_app (a b : string) :
  JS.toLowerCase (a ++ b) = JS.toLowerCase a ++ JS.toLowerCase b.
Proof.
  induction a as [|c a IH]; simpl; [reflexivity | now rewrite IH].
Qed.

Lemma prefix_app (t rest : string) : prefix t (t ++ rest) = true.
Proof.
  induction t as [|c t IH]; simpl.
  - now destruct rest.
  - destruct (ascii_dec c c) as [_|ne]; [exact IH | now destruct ne].
Qed.

Lemma includes_prefix (s t : string) :
  prefix t s = true -> JS.includes s t = true.
Proof.
  intros H. destruct s; cbn [JS.includes]; now rewrite H.
Qed.

Lemma includes_occurrence (pre t post : string) :
  JS.includes (pre ++ t ++ post) t = true.
Proof.
  induction pre as [|c pre IH].
  - change ("" ++ t ++ post) with (t ++ post).
    apply includes_prefix, prefix_app.
  - simpl. rewrite IH. apply orb_true_r.
Qed.

(** An occurrence in any letter case is an occurrence of the lower-case
    phrase in the lower-cased input. *)
Lemma includes_any_case (pre w post phrase : string) :
  JS.toLowerCase w = phrase ->
  JS.includes (JS.toLowerCase (pre ++ w ++ post)) phrase = true.
Proof.
  intros <-. rewrite !toLowerCase_app. apply includes_occurrence.
Qed.

Lemma trimEnd_blank (s : string) : JS.blank s = true -> JS.trimEnd s = "".
Proof.
  induction s as [|c s IH]; simpl; [reflexivity|].
  intros H. apply andb_prop in H as [Hc Hs].
  now rewrite (IH Hs), Hc.
Qed.

Lemma trimStart_blank (s : string) : JS.blank s = true -> JS.trimStart s = "".
Proof.
  induction s as [|c s IH]; simpl; [reflexivity|].
  intros H. apply andb_prop in H as [Hc Hs].
  rewrite Hc. exact (IH Hs).
Qed.

Lemma trimEnd_empty (s : string) : JS.trimEnd s = "" -> JS.blank s = true.
Proof.
  induction s as [|c s IH]; simpl; [reflexivity|].
  destruct (JS.trimEnd s) eqn:E; [|discriminate].
  destruct (JS.is_space c); [|discriminate].
  intros _. now rewrite IH.
Qed.

Lemma trimStart_keeps_blank (s : string) :
  JS.blank (JS.trimStart s) = JS.blank s.
Proof.
  induction s as [|c s IH]; simpl; [reflexivity|].
  destruct (JS.is_space c) eqn:E; simpl; [exact IH | now rewrite E].
Qed.

(** [trim] leaves nothing exactly when the string is white space only. *)
Lemma trim_empty_iff (s : string) : JS.trim s = "" <-> JS.blank s = true.
Proof.
  unfold JS.trim. split.
  - intros H. apply trimEnd_empty in H. now rewrite trimStart_keeps_blank in H.
  - intros H. now rewrite (trimStart_blank s H).
Qed.

(** ** The response generator *)

Lemma random_index_in_range (random : Q) :
  (0 <= random)%Q -> (random < 1)%Q ->
  (0 <= JS.Math_floor (random * inject_Z 5) < 5)%Z.
Proof.
  intros H0 H1. unfold JS.Math_floor. split.
  - change 0%Z with (Qfloor (inject_Z 0)). apply Qfloor_resp_le.
    rewrite <- (Qmult_0_l (inject_Z 5)). apply Qmult_le_compat_r; [exact H0|easy].
  - rewrite Zlt_Qlt.
    apply Qle_lt_trans with (random * inject_Z 5)%Q; [apply Qfloor_le|].
    setoid_replace (inject_Z 5) with (1 * inject_Z 5)%Q at 2 by ring.
    apply Qmult_lt_compat_r; [easy | exact H1].
Qed.

Lemma random_opener (random : Q) :
  (0 <= random)%Q -> (random < 1)%Q ->
  exists opener,
    In opener responses /\
    JS.index responses
      (JS.Math_floor (random * inject_Z (Z.of_nat (List.length responses))))
    = Some opener.
Proof.
  intros H0 H1.
  change (inject_Z (Z.of_nat (List.length responses))) with (inject_Z 5).
  pose proof (random_index_in_range random H0 H1) as R.
  set (z := JS.Math_floor (random * inject_Z 5)) in *.
  assert (z = 0 \/ z = 1 \/ z = 2 \/ z = 3 \/ z = 4)%Z as C by lia.
  destruct C as [-> | [-> | [-> | [-> | ->]]]];
    (eexists; split; [|reflexivity]); simpl; tauto.
Qed.

Lemma no_trigger_inv (s : string) :
  no_trigger s = true ->
  JS.includes (JS.toLowerCase s) "hello" = false /\
  JS.includes (JS.toLowerCase s) "hi" = false /\
  JS.includes (JS.toLowerCase s) "how are you" = false /\
  JS.includes (JS.toLowerCase s) "what can you do" = false.
Proof.
  unfold no_trigger. cbv zeta. intros H.
  repeat (apply andb_prop in H as [H ?]).
  repeat split; now apply negb_true_iff.
Qed.

(** C7: an input that contains "hello" in any letter case gets the fixed
    greeting reply, whatever surrounds the occurrence and whatever value
    the random draw takes; the generator is a total function of the draw
    and the input, so it cannot fail and touches nothing else. No trigger
    is checked before this one. *)
Theorem hello_yields_greeting (random : Q) (pre w post : string) :
  JS.toLowerCase w = "hello" ->
  generateAIResponse random (pre ++ w ++ post) = greeting_reply.
Proof.
  intros Hw. unfold generateAIResponse.
  now rewrite (includes_any_case pre w post "hello" Hw).
Qed.

Lemma hello_yields_greeting_witness :
  JS.toLowerCase "HeLLo" = "hello" /\
  generateAIResponse (3 # 4) ("Oh, " ++ "HeLLo" ++ " how are you") = greeting_reply.
Proof.
  split; [reflexivity|].
  apply (hello_yields_greeting (3 # 4) "Oh, " "HeLLo" " how are you").
  reflexivity.
Defined.

(** C8: for an input that matches no trigger phrase, and a random draw in
    [0, 1), the output is one of the fixed openers, a space, and a clause
    chosen by the input length alone: the short acknowledgement up to 50
    characters, the "detailed message" clause above 50. *)
Theorem fallback_reply (random : Q) (userMessage : string) :
  (0 <= random)%Q -> (random < 1)%Q ->
  no_trigger userMessage = true ->
  exists opener,
    In opener responses /\
    (String.length userMessage <= 50 ->
     generateAIResponse random userMessage = opener ++ " " ++ short_clause) /\
    (50 < String.length userMessage ->
     generateAIResponse random userMessage = opener ++ " " ++ detailed_clause).
Proof.
  intros H0 H1 Hn.
  destruct (no_trigger_inv _ Hn) as (Ha & Hb & Hc & Hd).
  destruct (random_opener random H0 H1) as (opener & Hin & Hidx).
  exists opener. split; [exact Hin|].
  unfold generateAIResponse. rewrite Ha, Hb, Hc, Hd, Hidx. simpl orb. cbv iota.
  split; intros Hlen.
  - apply Nat.ltb_ge in Hlen. now rewrite Hlen.
  - apply Nat.ltb_lt in Hlen. now rewrite Hlen.
Qed.

Lemma fallback_reply_witness :
  exists opener,
    In opener responses /\
    (String.length "Tell me a story" <= 50 ->
     generateAIResponse (1 # 2) "Tell me a story"
     = opener ++ " " ++ short_clause) /\
    (50 < String.length "Tell me a story" ->
     generateAIResponse (1 # 2) "Tell me a story"
     = opener ++ " " ++ detailed_clause).
Proof.
  apply (fallback_reply (1 # 2) "Tell me a story");
    [unfold Qle; simpl; lia | unfold Qlt; simpl; lia | reflexivity].
Defined.

(** C9: an input that contains "hi" in any letter case, anywhere, also
    inside a word such as "this" or "which", gets the greeting reply; the
    check comes before the "how are you" and "what can you do" triggers,
    so it wins when one of those phrases is present too. *)
Theorem hi_yields_greeting (random : Q) (pre w post : string) :
  JS.toLowerCase w = "hi" ->
  generateAIResponse random (pre ++ w ++ post) = greeting_reply.
Proof.
  intros Hw. unfold generateAIResponse.
  rewrite (includes_any_case pre w post "hi" Hw).
  now rewrite orb_true_r.
Qed.

Lemma hi_yields_greeting_witness :
  JS.toLowerCase "hi" = "hi" /\
  generateAIResponse (1 # 4) ("what can you do about t" ++ "hi" ++ "s") =
  greeting_reply.
Proof.
  split; [reflexivity|].
  apply (hi_yields_greeting (1 # 4) "what can you do about t" "hi" "s").
  reflexivity.
Defined.

(** ** The controller: one asynchronous call at a time *)

Lemma nth_error_last {A} (l : list A) (k : A) :
  nth_error (l ++ [k]) (List.length l) = Some k.
Proof.
  induction l as [|x l IH]; simpl; [reflexivity | exact IH].
Qed.

Lemma remove_nth_last {A} (l : list A) (k : A) :
  remove_nth (List.length l) (l ++ [k]) = l.
Proof.
  induction l as [|x l IH]; simpl; [reflexivity | now rewrite IH].
Qed.

(** The guard of [sendMessage] lets a send through exactly when the
    trimmed input is not empty and no send is in flight. *)
Lemma sendMessage_accepted (w : World) :
  JS.trim (input w) <> "" -> loading w = false ->
  sendMessage w =
  saveMessage role_user (JS.trim (input w)) (AwaitSaveUser (JS.trim (input w)))
    (setLoading true (setInput "" w)).
Proof.
  intros Ht Hl. unfold sendMessage, JS.truthy. rewrite Hl.
  destruct (String.eqb_spec (JS.trim (input w)) "") as [E|_];
    [contradiction | reflexivity].
Qed.

Lemma sendMessage_rejected (w : World) :
  JS.trim (input w) = "" \/ loading w = true -> sendMessage w = w.
Proof.
  unfold sendMessage, JS.truthy. intros [E | E]; rewrite E.
  - reflexivity.
  - now rewrite orb_true_r.
Qed.

(** The store answers the call that was suspended last. *)
Lemma resolve_latest (q : Request) (k : Pending) (f : Fate) (w : World) :
  step (Resolve (List.length (inflight w)) f) (await q k w) =
  resume k f (set_inflight (inflight w) (await q k w)).
Proof.
  unfold step, await; simpl.
  now rewrite nth_error_last, remove_nth_last.
Qed.

(** C4: sending an input that is empty or white space only changes
    nothing: the whole state is as before, so the message sequence keeps
    its length and no request has gone to the store. *)
Theorem blank_send_is_noop (w : World) :
  JS.blank (input w) = true ->
  step Submit w = w /\
  List.length (messages (step Submit w)) = List.length (messages w) /\
  calls (step Submit w) = calls w /\
  inflight (step Submit w) = inflight w.
Proof.
  intros Hb. apply trim_empty_iff in Hb.
  assert (step Submit w = w) as E by (apply sendMessage_rejected; now left).
  rewrite E. repeat split.
Qed.

Lemma blank_send_is_noop_witness :
  let w := mkWorld [] "   " false false (Some "u1") [] []
             (open_store []) [] [] [] in
  JS.blank (input w) = true /\ step Submit w = w /\ calls (step Submit w) = [].
Proof.
  intros w.
  assert (Hb : JS.blank (input w) = true) by reflexivity.
  destruct (blank_send_is_noop w Hb) as (E & _ & Hc & _).
  split; [exact Hb | split; [exact E | exact Hc]].
Defined.

#[local] Arguments generateAIResponse : simpl never.
#[local] Arguments JS.trim : simpl never.

(** Unfold the controller's code down to the record it builds. *)
Ltac refold_world w :=
  fold (messages w) (input w) (loading w) (loadingMessages w) (user w)
       (toasts w) (console w) (store w) (calls w) (inflight w) (entropy w).

Ltac controller_code :=
  cbv [resume serve_insert serve_select
       sendMessage_resume_user sendMessage_resume_assistant
       sendMessage_finally sendMessage_catch saveMessage_catch saveMessage
       loadMessages loadMessages_resume await toast console_error
       setMessages setInput setLoading setLoadingMessages
       set_store set_inflight set_entropy Math_random next_random
       user_message assistant_message
       messages input loading loadingMessages user toasts console store
       calls inflight entropy fst snd select_error select_data];
  repeat match goal with
         | w : World |- _ => progress refold_world w
         end.

(** An accepted send, up to its first [await]. *)
Lemma run_send_started (w : World) :
  JS.trim (input w) <> "" -> loading w = false ->
  step Submit w =
  mkWorld (messages w) "" true (loadingMessages w) (user w) (toasts w)
    (console w) (store w)
    (calls w ++ [Insert (user w) role_user (JS.trim (input w))])
    (inflight w ++ [AwaitSaveUser (JS.trim (input w))]) (entropy w).
Proof.
  intros Ht Hl. unfold step. now rewrite (sendMessage_accepted w Ht Hl).
Qed.

(** ... then the store fails the insertion of the user message. *)
Lemma run_send_first_fault (w : World) :
  JS.trim (input w) <> "" -> loading w = false ->
  run [Submit; Resolve (List.length (inflight w)) Fault] w =
  mkWorld (messages w) "" false (loadingMessages w) (user w)
    (toasts w ++ [send_failed])
    (console w ++ ["Error saving message:"; "Error sending message:"])
    (store w)
    (calls w ++ [Insert (user w) role_user (JS.trim (input w))])
    (inflight w) (entropy w).
Proof.
  intros Ht Hl. unfold run. rewrite (run_send_started w Ht Hl).
  unfold step; simpl. rewrite nth_error_last, remove_nth_last.
  controller_code. now rewrite <- app_assoc.
Qed.

(** ... or serves it, and the send is suspended on the second insertion. *)
Lemma run_send_first_served (w : World) (id1 t1 : string) :
  JS.trim (input w) <> "" -> loading w = false ->
  run [Submit; Resolve (List.length (inflight w)) (Served id1 t1)] w =
  let reply := generateAIResponse (next_random w) (JS.trim (input w)) in
  mkWorld (messages w ++ [user_message w id1 t1]) "" true
    (loadingMessages w) (user w) (toasts w) (console w)
    (store_insert (store w) (mkRow (user w) (user_message w id1 t1)))
    (calls w ++ [Insert (user w) role_user (JS.trim (input w));
                 Insert (user w) role_assistant reply])
    (inflight w ++ [AwaitSaveAssistant reply]) (tl (entropy w)).
Proof.
  intros Ht Hl. unfold run. rewrite (run_send_started w Ht Hl).
  unfold step; simpl. rewrite nth_error_last, remove_nth_last.
  controller_code.
  destruct (entropy w) as [|r rest]; controller_code; now rewrite <- app_assoc.
Qed.

Lemma run_app (es1 es2 : list Event) (w : World) :
  run (es1 ++ es2) w = run es2 (run es1 w).
Proof.
  revert w. induction es1 as [|e es1 IH]; intros w; simpl;
    [reflexivity | apply IH].
Qed.

(** Both insertions served. *)
Lemma run_send_both_served (w : World) (id1 t1 id2 t2 : string) :
  JS.trim (input w) <> "" -> loading w = false ->
  run [Submit; Resolve (List.length (inflight w)) (Served id1 t1);
       Resolve (List.length (inflight w)) (Served id2 t2)] w =
  mkWorld (messages w ++ [user_message w id1 t1; assistant_message w id2 t2])
    "" false (loadingMessages w) (user w) (toasts w) (console w)
    (store_insert
       (store_insert (store w) (mkRow (user w) (user_message w id1 t1)))
       (mkRow (user w) (assistant_message w id2 t2)))
    (calls w ++ [Insert (user w) role_user (JS.trim (input w));
                 Insert (user w) role_assistant
                   (content (assistant_message w id2 t2))])
    (inflight w) (tl (entropy w)).
Proof.
  intros Ht Hl.
  change [Submit; Resolve (List.length (inflight w)) (Served id1 t1);
          Resolve (List.length (inflight w)) (Served id2 t2)]
    with ([Submit; Resolve (List.length (inflight w)) (Served id1 t1)]
          ++ [Resolve (List.length (inflight w)) (Served id2 t2)])%list.
  rewrite run_app, (run_send_first_served w id1 t1 Ht Hl).
  unfold run, step; simpl. rewrite nth_error_last, remove_nth_last.
  controller_code. now rewrite <- app_assoc.
Qed.

(** The first insertion served, the second failed. *)
Lemma run_send_second_fault (w : World) (id1 t1 : string) :
  JS.trim (input w) <> "" -> loading w = false ->
  run [Submit; Resolve (List.length (inflight w)) (Served id1 t1);
       Resolve (List.length (inflight w)) Fault] w =
  mkWorld (messages w ++ [user_message w id1 t1])
    "" false (loadingMessages w) (user w) (toasts w ++ [send_failed])
    (console w ++ ["Error saving message:"; "Error sending message:"])
    (store_insert (store w) (mkRow (user w) (user_message w id1 t1)))
    (calls w ++ [Insert (user w) role_user (JS.trim (input w));
                 Insert (user w) role_assistant
                   (generateAIResponse (next_random w) (JS.trim (input w)))])
    (inflight w) (tl (entropy w)).
Proof.
  intros Ht Hl.
  change [Submit; Resolve (List.length (inflight w)) (Served id1 t1);
          Resolve (List.length (inflight w)) Fault]
    with ([Submit; Resolve (List.length (inflight w)) (Served id1 t1)]
          ++ [Resolve (List.length (inflight w)) Fault])%list.
  rewrite run_app, (run_send_first_served w id1 t1 Ht Hl).
  unfold run, step; simpl. rewrite nth_error_last, remove_nth_last.
  controller_code. now rewrite <- app_assoc.
Qed.

(** C1: a send whose trimmed input is not empty, issued while no send is
    in flight, and both of whose insertions the store serves, appends
    exactly two entries to the message sequence: first the user message as
    the store confirmed it, then the assistant message as the store
    confirmed it. The two entries are the two rows the store has gained. *)
Theorem send_appends_user_then_assistant
  (w : World) (id1 t1 id2 t2 : string) :
  JS.trim (input w) <> "" -> loading w = false ->
  let n := List.length (inflight w) in
  let w1 := run [Submit; Resolve n (Served id1 t1)] w in
  let w2 := run [Submit; Resolve n (Served id1 t1);
                 Resolve n (Served id2 t2)] w in
  let userMsg := user_message w id1 t1 in
  let assistantMsg := assistant_message w id2 t2 in
  messages w1 = (messages w ++ [userMsg])%list /\
  messages w2 = (messages w ++ [userMsg; assistantMsg])%list /\
  List.length (messages w2) = List.length (messages w) + 2 /\
  role userMsg = role_user /\ content userMsg = JS.trim (input w) /\
  role assistantMsg = role_assistant /\
  content assistantMsg =
    generateAIResponse (next_random w) (JS.trim (input w)) /\
  map message (rows (store w2)) =
    (map message (rows (store w)) ++ [userMsg; assistantMsg])%list /\
  toasts w2 = toasts w /\ loading w2 = false.
Proof.
  intros Ht Hl n w1 w2 userMsg assistantMsg. subst n w1 w2.
  rewrite (run_send_first_served w id1 t1 Ht Hl).
  rewrite (run_send_both_served w id1 t1 id2 t2 Ht Hl).
  cbn [messages store toasts loading store_insert rows role content
       user_message assistant_message].
  rewrite length_app, !map_app, <- app_assoc. simpl.
  repeat split.
Qed.

Lemma send_appends_user_then_assistant_witness :
  let w := mkWorld [] "  Hello there " false false (Some "u1") [] []
             (mkStore [] (fun _ _ => true) String.leb) [] [] [(1 # 2)%Q] in
  let w2 := run [Submit; Resolve 0 (Served "m1" "2024-05-01T10:00:00Z");
                 Resolve 0 (Served "m2" "2024-05-01T10:00:01Z")] w in
  messages w2 =
    [mkMessage "m1" role_user "Hello there" "2024-05-01T10:00:00Z";
     mkMessage "m2" role_assistant greeting_reply "2024-05-01T10:00:01Z"].
Proof.
  intros w w2.
  assert (Ht : JS.trim (input w) <> "") by (vm_compute; discriminate).
  assert (Hl : loading w = false) by reflexivity.
  destruct (send_appends_user_then_assistant w "m1" "2024-05-01T10:00:00Z"
              "m2" "2024-05-01T10:00:01Z" Ht Hl) as (_ & H & _).
  exact H.
Defined.



(** ** Loading the conversation *)

Section Ordering.

Variable le : Row -> Row -> bool.
Hypothesis le_total : forall a b, le a b = true \/ le b a = true.

Let R (a b : Row) : Prop := le a b = true.

Lemma insert_sorted_perm (x : Row) (l : list Row) :
  Permutation (insert_sorted le x l) (x :: l).
Proof.
  induction l as [|y l IH]; simpl; [reflexivity|].
  destruct (le x y); [reflexivity|].
  rewrite IH. apply perm_swap.
Qed.

Lemma order_by_perm (l : list Row) : Permutation (order_by le l) l.
Proof.
  induction l as [|x l IH]; simpl; [reflexivity|].
  rewrite insert_sorted_perm. now constructor.
Qed.

Lemma insert_sorted_hd (x y : Row) (l : list Row) :
  R y x -> HdRel R y l -> HdRel R y (insert_sorted le x l).
Proof.
  intros Hyx Hl. destruct l as [|z l]; simpl.
  - now constructor.
  - destruct (le x z); constructor; [exact Hyx|].
    now inversion Hl.
Qed.

Lemma insert_sorted_ok (x : Row) (l : list Row) :
  Sorted R l -> Sorted R (insert_sorted le x l).
Proof.
  induction l as [|y l IH]; intros Hs; simpl.
  - repeat constructor.
  - inversion Hs as [|? ? Hs' Hhd]; subst.
    destruct (le x y) eqn:E.
    + constructor; [exact Hs | now constructor].
    + constructor; [now apply IH|].
      apply insert_sorted_hd; [|exact Hhd].
      destruct (le_total x y) as [F|F]; [congruence | exact F].
Qed.

Lemma order_by_ok (l : list Row) : Sorted R (order_by le l).
Proof.
  induction l as [|x l IH]; simpl; [constructor | now apply insert_sorted_ok].
Qed.

End Ordering.

Lemma Sorted_messages (s : Store) (l : list Row) :
  Sorted (fun a b => row_le s a b = true) l ->
  Sorted (ascending s) (map message l).
Proof.
  induction 1 as [|x l Hs IH Hhd]; simpl; constructor; [exact IH|].
  destruct Hhd; simpl; constructor. assumption.
Qed.

Lemma select_rows_visible (s : Store) (u : option string) (r : Row) :
  In r (select_rows s u) <-> In r (rows s) /\ visible s u r = true.
Proof.
  unfold select_rows. rewrite <- filter_In. split; intros H.
  - eapply Permutation_in; [apply order_by_perm | exact H].
  - eapply Permutation_in; [symmetry; apply order_by_perm | exact H].
Qed.

(** The load, from the request to the answer of the store. *)
Lemma run_load_served (w : World) (i t : string) :
  run [Mount; Resolve (List.length (inflight w)) (Served i t)] w =
  mkWorld (map message (select_rows (store w) (user w))) (input w)
    (loading w) false (user w) (toasts w) (console w) (store w)
    (calls w ++ [SelectOrdered]) (inflight w) (entropy w).
Proof.
  change (run [Mount; Resolve (List.length (inflight w)) (Served i t)] w)
    with (step (Resolve (List.length (inflight w)) (Served i t))
            (await SelectOrdered AwaitLoad w)).
  rewrite resolve_latest. now controller_code.
Qed.

Lemma run_load_fault (w : World) :
  run [Mount; Resolve (List.length (inflight w)) Fault] w =
  mkWorld (messages w) (input w) (loading w) false (user w)
    (toasts w ++ [load_failed]) (console w ++ ["Error loading messages:"])
    (store w) (calls w ++ [SelectOrdered]) (inflight w) (entropy w).
Proof.
  change (run [Mount; Resolve (List.length (inflight w)) Fault] w)
    with (step (Resolve (List.length (inflight w)) Fault)
            (await SelectOrdered AwaitLoad w)).
  rewrite resolve_latest. now controller_code.
Qed.

(** C2 (as amended): the load replaces the message sequence with exactly
    the rows the store returns to the session for the ordered select. The
    request carries no user: which rows a session may read is the store's
    access rule. The rows come in ascending [created_at] order (for a store
    whose order on that column is total); an empty or null result gives the
    empty sequence with no toast, and [loadingMessages] is reset. Where the
    store's rule lets a session read its own user's rows only, the sequence
    is exactly the current user's records. *)
Theorem load_replaces_with_store_answer (w : World) (i t : string) :
  (forall a b, created_le (store w) a b = true \/
               created_le (store w) b a = true) ->
  let w' := run [Mount; Resolve (List.length (inflight w)) (Served i t)] w in
  calls w' = (calls w ++ [SelectOrdered])%list /\
  messages w' = map message (select_rows (store w) (user w)) /\
  Permutation (messages w')
    (map message (filter (visible (store w) (user w)) (rows (store w)))) /\
  Sorted (ascending (store w)) (messages w') /\
  toasts w' = toasts w /\ loadingMessages w' = false /\
  (select_rows (store w) (user w) = [] -> messages w' = []) /\
  messages (loadMessages_resume (mkSelectResponse None false) w) = [] /\
  toasts (loadMessages_resume (mkSelectResponse None false) w) = toasts w /\
  ((forall r, visible (store w) (user w) r = owned_by (user w) r) ->
   Permutation (messages w')
     (map message (filter (owned_by (user w)) (rows (store w)))) /\
   Forall (fun r => owned_by (user w) r = true)
     (select_rows (store w) (user w))).
Proof.
  intros Htot w'. subst w'. rewrite run_load_served.
  cbn [calls messages toasts loadingMessages].
  repeat split.
  - apply Permutation_map. unfold select_rows. apply order_by_perm.
  - apply Sorted_messages. unfold select_rows. apply order_by_ok.
    intros a b. unfold row_le. apply Htot.
  - now intros ->.
  - apply Permutation_map. unfold select_rows.
    rewrite order_by_perm.
    rewrite (filter_ext _ _ H). reflexivity.
  - apply Forall_forall. intros r Hr.
    apply select_rows_visible in Hr as [_ Hv]. now rewrite <- H.
Qed.

Lemma load_replaces_with_store_answer_witness :
  let alice := Some "alice" in
  let r1 := mkRow alice (mkMessage "a" role_user "hey" "2024-05-02") in
  let r2 := mkRow alice (mkMessage "b" role_assistant "yo" "2024-05-01") in
  let w := initial alice (owner_only_store [r1; r2]) [] in
  messages (run [Mount; Resolve 0 (Served "" "")] w) = [message r2; message r1].
Proof.
  intros alice r1 r2 w.
  destruct (load_replaces_with_store_answer w "" ""
              (fun a b => String.leb_total a b)) as (_ & H & _).
  exact H.
Defined.

(** C2 (as stated) fails: with a store that applies no access rule, the
    load of alice's session brings bob's row into the sequence. *)
Lemma load_shows_foreign_rows :
  let alice := Some "alice" in
  let mine := mkRow alice (mkMessage "a" role_user "hey" "2024-05-02") in
  let foreign :=
    mkRow (Some "bob") (mkMessage "b" role_user "secret" "2024-05-01") in
  let w := initial alice (open_store [mine; foreign]) [] in
  let w' := run [Mount; Resolve 0 (Served "" "")] w in
  owned_by (user w) foreign = false /\
  In (message foreign) (messages w') /\
  messages w' <> map message (filter (owned_by (user w)) (rows (store w))) /\
  ~ Permutation (messages w')
      (map message (filter (owned_by (user w)) (rows (store w)))).
Proof.
  cbv zeta. repeat split.
  - vm_compute. now left.
  - vm_compute. discriminate.
  - vm_compute. intros P. apply Permutation_length in P. discriminate.
Qed.

(** C6: when the store fails the initial load, the message sequence is
    still empty, the load-failure toast is raised, and [loadingMessages]
    is reset, so the loading screen is left. *)
Theorem load_failure_leaves_empty (u : option string) (s : Store) (rnd : list Q) :
  let w' := run [Mount; Resolve 0 Fault] (initial u s rnd) in
  messages w' = [] /\
  toasts w' = [load_failed] /\
  console w' = ["Error loading messages:"] /\
  loadingMessages w' = false /\
  inflight w' = [].
Proof.
  cbv zeta. change 0 with (List.length (inflight (initial u s rnd))).
  rewrite run_load_fault. repeat split.
Qed.

(** ** Single flight *)

Lemma count_remove_nth (l : list Pending) (i : nat) (p : Pending) :
  nth_error l i = Some p ->
  List.length (filter is_send l) =
  List.length (filter is_send (remove_nth i l)) + (if is_send p then 1 else 0).
Proof.
  revert i. induction l as [|x l IH]; intros [|i] H; simpl in *;
    try discriminate.
  - injection H as ->. destruct (is_send p); simpl; lia.
  - specialize (IH i H). destruct (is_send x); simpl; lia.
Qed.

Lemma count_app_one (l : list Pending) (p : Pending) :
  List.length (filter is_send (l ++ [p])) =
  List.length (filter is_send l) + (if is_send p then 1 else 0).
Proof.
  rewrite filter_app, length_app. simpl. now destruct (is_send p).
Qed.

Lemma sendMessage_single_flight (w : World) :
  single_flight w -> single_flight (sendMessage w).
Proof.
  unfold sendMessage. intros H.
  destruct (negb (JS.truthy (JS.trim (input w))) || loading w) eqn:G;
    [exact H|].
  apply orb_false_elim in G as [_ Hl].
  unfold single_flight, outstanding_sends in *. rewrite Hl in H.
  controller_code. rewrite count_app_one, H. reflexivity.
Qed.

Lemma resume_single_flight (w : World) (i : nat) (p : Pending) (f : Fate) :
  single_flight w -> nth_error (inflight w) i = Some p ->
  single_flight (resume p f (set_inflight (remove_nth i (inflight w)) w)).
Proof.
  unfold single_flight, outstanding_sends. intros H Hp.
  rewrite (count_remove_nth _ _ _ Hp) in H.
  destruct p as [|m|a]; destruct f as [|new_id new_ts]; controller_code;
    simpl in H;
    try (destruct (select_error _); controller_code);
    try (destruct (entropy w); controller_code);
    try rewrite count_app_one; simpl;
    destruct (loading w); lia.
Qed.

Lemma step_single_flight (e : Event) (w : World) :
  single_flight w -> single_flight (step e w).
Proof.
  intros H. destruct e as [|v| |i f]; simpl.
  - unfold single_flight, outstanding_sends in *. controller_code.
    now rewrite count_app_one, Nat.add_0_r.
  - destruct (input_enabled w); exact H.
  - now apply sendMessage_single_flight.
  - destruct (nth_error (inflight w) i) as [p|] eqn:E; [|exact H].
    now apply resume_single_flight.
Qed.

Lemma run_single_flight (es : list Event) (w : World) :
  single_flight w -> single_flight (run es w).
Proof.
  revert w. induction es as [|e es IH]; intros w H; simpl; [exact H|].
  apply IH, step_single_flight, H.
Qed.



(** ** The input field *)

Lemma step_keeps_input_cleared (e : Event) (w : World) :
  loading w = true -> input (step e w) = input w.
Proof.
  intros Hl. destruct e as [|v| |i f]; simpl.
  - reflexivity.
  - unfold input_enabled. rewrite Hl, andb_false_r. reflexivity.
  - rewrite sendMessage_rejected; [reflexivity | now right].
  - destruct (nth_error (inflight w) i) as [p|]; [|reflexivity].
    destruct p as [|m|a]; destruct f as [|new_id new_ts]; controller_code;
      try (destruct (select_error _); controller_code);
      try (destruct (entropy w); controller_code); reflexivity.
Qed.

Lemma step_cleared_while_loading (e : Event) (w : World) :
  cleared_while_loading w -> cleared_while_loading (step e w).
Proof.
  unfold cleared_while_loading. intros H Hl'.
  destruct (loading w) eqn:Hl.
  - rewrite step_keeps_input_cleared by exact Hl. now apply H.
  - destruct e as [|v| |i f]; simpl in *.
    + congruence.
    + destruct (input_enabled w); simpl in Hl'; congruence.
    + unfold sendMessage in *. rewrite Hl in *.
      destruct (negb (JS.truthy (JS.trim (input w))) || false);
        [congruence | reflexivity].
    + destruct (nth_error (inflight w) i) as [p|]; [|congruence].
      destruct p as [|m|a]; destruct f as [|new_id new_ts];
        revert Hl'; controller_code;
        try (destruct (select_error _); controller_code);
        try (destruct (entropy w); controller_code); congruence.
Qed.

Lemma run_cleared_while_loading (es : list Event) (w : World) :
  cleared_while_loading w -> cleared_while_loading (run es w).
Proof.
  revert w. induction es as [|e es IH]; intros w H; simpl; [exact H|].
  apply IH, step_cleared_while_loading, H.
Qed.

(** C10: an accepted send issues its first store request from a state in
    which the input field is already empty, and nothing puts the text
    back: the field is empty while the send is in flight, whatever events
    arrive, and it is empty when the send ends, whether the first insertion
    fails, the second fails, or both are served. *)
Theorem input_cleared_by_send (w : World) (id1 t1 id2 t2 : string) :
  JS.trim (input w) <> "" -> loading w = false ->
  let n := List.length (inflight w) in
  let text := JS.trim (input w) in
  let w0 := setLoading true (setInput "" w) in
  (* the request leaves after the field is cleared *)
  (input w0 = "" /\ calls w0 = calls w /\
   step Submit w = saveMessage role_user text (AwaitSaveUser text) w0 /\
   input (step Submit w) = "" /\ loading (step Submit w) = true) /\
  (* the three ways the send ends *)
  input (run [Submit; Resolve n Fault] w) = "" /\
  input (run [Submit; Resolve n (Served id1 t1); Resolve n Fault] w) = "" /\
  input (run [Submit; Resolve n (Served id1 t1);
              Resolve n (Served id2 t2)] w) = "" /\
  (* under any interleaving of events *)
  (forall es : list Event,
     let w2 := run es (step Submit w) in
     (loading w2 = true -> input w2 = "") /\
     (forall e, loading w2 = true -> input (step e w2) = "")).
Proof.
  intros Ht Hl n text w0. subst n text w0.
  rewrite (run_send_first_fault w Ht Hl).
  rewrite (run_send_second_fault w id1 t1 Ht Hl).
  rewrite (run_send_both_served w id1 t1 id2 t2 Ht Hl).
  assert (cleared_while_loading (step Submit w)) as C.
  { rewrite (run_send_started w Ht Hl). now intros _. }
  split; [|repeat split].
  - rewrite (run_send_started w Ht Hl). repeat split.
  - now apply run_cleared_while_loading.
  - intros e Hl2. rewrite step_keeps_input_cleared by exact Hl2.
    now apply run_cleared_while_loading.
Qed.

Lemma input_cleared_by_send_witness :
  let w := mkWorld [] "  Hello there " false false (Some "u1") [] []
             (open_store []) [] [] [] in
  input (run [Submit; Change "typed meanwhile"; Resolve 0 Fault] w) = "".
Proof.
  intros w.
  assert (Ht : JS.trim (input w) <> "") by (vm_compute; discriminate).
  assert (Hl : loading w = false) by reflexivity.
  destruct (input_cleared_by_send w "" "" "" "" Ht Hl) as (_ & _ & _ & _ & H).
  destruct (H [Change "typed meanwhile"]) as [_ H2].
  exact (H2 (Resolve 0 Fault) eq_refl).
Defined.

(* ================================================================== *)
(** * Further properties *)

(** ** The response generator: the other triggers, its range *)

(** An input with "how are you" in any letter case, and neither "hello"
    nor "hi", gets the well-being reply, also when it asks "what can you
    do" as well. *)
Theorem how_are_you_yields_wellbeing (random : Q) (pre w post : string) :
  JS.toLowerCase w = "how are you" ->
  JS.includes (JS.toLowerCase (pre ++ w ++ post)) "hello" = false ->
  JS.includes (JS.toLowerCase (pre ++ w ++ post)) "hi" = false ->
  generateAIResponse random (pre ++ w ++ post) = wellbeing_reply.
Proof.
  intros Hw H1 H2. unfold generateAIResponse.
  now rewrite H1, H2, (includes_any_case pre w post "how are you" Hw).
Qed.

Lemma how_are_you_yields_wellbeing_witness :
  generateAIResponse (1 # 3) ("So, " ++ "How Are You" ++ "? And what can you do?")
  = wellbeing_reply.
Proof.
  apply (how_are_you_yields_wellbeing (1 # 3) "So, " "How Are You"
           "? And what can you do?"); reflexivity.
Defined.

(** An input with "what can you do" in any letter case and none of the
    earlier triggers gets the capability reply. *)
Theorem what_can_you_do_yields_capability (random : Q) (pre w post : string) :
  JS.toLowerCase w = "what can you do" ->
  JS.includes (JS.toLowerCase (pre ++ w ++ post)) "hello" = false ->
  JS.includes (JS.toLowerCase (pre ++ w ++ post)) "hi" = false ->
  JS.includes (JS.toLowerCase (pre ++ w ++ post)) "how are you" = false ->
  generateAIResponse random (pre ++ w ++ post) = capability_reply.
Proof.
  intros Hw H1 H2 H3. unfold generateAIResponse.
  now rewrite H1, H2, H3, (includes_any_case pre w post "what can you do" Hw).
Qed.

Lemma what_can_you_do_yields_capability_witness :
  generateAIResponse (1 # 3) ("Tell me, " ++ "WHAT can you DO" ++ "?")
  = capability_reply.
Proof.
  apply (what_can_you_do_yields_capability (1 # 3) "Tell me, "
           "WHAT can you DO" "?"); reflexivity.
Defined.

Lemma In_fallback_replies (opener : string) (long : bool) :
  In opener responses ->
  In (opener ++ " " ++ (if long then detailed_clause else short_clause))
     fallback_replies.
Proof.
  intros H. unfold fallback_replies. apply in_flat_map.
  exists opener. split; [exact H|].
  destruct long; simpl; tauto.
Qed.

(** For a draw in [0, 1) the reply is one of thirteen fixed texts, whatever
    the input: the generator never interpolates an undefined opener. *)
Theorem reply_is_one_of_the_fixed_texts (random : Q) (userMessage : string) :
  (0 <= random)%Q -> (random < 1)%Q ->
  In (generateAIResponse random userMessage) possible_replies /\
  List.length possible_replies = 13.
Proof.
  intros H0 H1. split; [|reflexivity].
  destruct (random_opener random H0 H1) as (opener & Hin & Hidx).
  unfold possible_replies, generateAIResponse. rewrite Hidx.
  destruct (JS.includes (JS.toLowerCase userMessage) "hello"
            || JS.includes (JS.toLowerCase userMessage) "hi");
    [simpl; tauto|].
  destruct (JS.includes (JS.toLowerCase userMessage) "how are you");
    [simpl; tauto|].
  destruct (JS.includes (JS.toLowerCase userMessage) "what can you do");
    [simpl; tauto|].
  apply in_or_app. right. cbn [JS.interpolate].
  apply (In_fallback_replies opener _ Hin).
Qed.

Lemma reply_is_one_of_the_fixed_texts_witness :
  In (generateAIResponse (4 # 5) "Tell me a story") possible_replies.
Proof.
  apply (reply_is_one_of_the_fixed_texts (4 # 5) "Tell me a story");
    [unfold Qle; simpl; lia | unfold Qlt; simpl; lia].
Defined.

Lemma toLowerCase_length (s : string) :
  String.length (JS.toLowerCase s) = String.length s.
Proof.
  induction s as [|c s IH]; simpl; [reflexivity | now rewrite IH].
Qed.

(** The reply does not depend on the letter case of the input: two inputs
    that differ in case only get the same reply from the same draw. *)
Theorem reply_ignores_letter_case (random : Q) (a b : string) :
  JS.toLowerCase a = JS.toLowerCase b ->
  generateAIResponse random a = generateAIResponse random b.
Proof.
  intros H. unfold generateAIResponse. rewrite H.
  now rewrite <- (toLowerCase_length a), <- (toLowerCase_length b), H.
Qed.

Lemma reply_ignores_letter_case_witness :
  generateAIResponse (2 # 3) "TELL ME A STORY" =
  generateAIResponse (2 # 3) "tell me a Story".
Proof.
  apply (reply_ignores_letter_case (2 # 3)); reflexivity.
Defined.

(** When a trigger matches, the reply is the same for every draw: chance
    enters the fallback reply only. *)
Theorem triggered_reply_ignores_the_draw (r1 r2 : Q) (userMessage : string) :
  no_trigger userMessage = false ->
  generateAIResponse r1 userMessage = generateAIResponse r2 userMessage.
Proof.
  unfold no_trigger, generateAIResponse. cbv zeta.
  destruct (JS.includes (JS.toLowerCase userMessage) "hello");
    [reflexivity|].
  destruct (JS.includes (JS.toLowerCase userMessage) "hi");
    [reflexivity|].
  destruct (JS.includes (JS.toLowerCase userMessage) "how are you");
    [reflexivity|].
  destruct (JS.includes (JS.toLowerCase userMessage) "what can you do");
    [reflexivity | discriminate].
Qed.

Lemma triggered_reply_ignores_the_draw_witness :
  generateAIResponse (1 # 10) "how are you?" =
  generateAIResponse (9 # 10) "how are you?".
Proof.
  apply (triggered_reply_ignores_the_draw (1 # 10) (9 # 10)); reflexivity.
Defined.

(** The reply is never the empty string, whatever the draw. *)
Lemma reply_not_empty (random : Q) (userMessage : string) :
  generateAIResponse random userMessage <> "".
Proof.
  unfold generateAIResponse.
  destruct (_ || _); [discriminate|].
  destruct (JS.includes _ "how are you"); [discriminate|].
  destruct (JS.includes _ "what can you do"); [discriminate|].
  destruct (JS.interpolate _) as [|c o]; discriminate.
Qed.

(** ** What the component asks of the store *)

Lemma trimEnd_idempotent (s : string) :
  JS.trimEnd (JS.trimEnd s) = JS.trimEnd s.
Proof.
  induction s as [|c s IH]; [reflexivity|].
  cbn [JS.trimEnd]. destruct (JS.trimEnd s) as [|d r] eqn:E.
  - destruct (JS.is_space c) eqn:Ec; [reflexivity|].
    cbn [JS.trimEnd]. now rewrite Ec.
  - cbn [JS.trimEnd]. cbn [JS.trimEnd] in IH.
    destruct (JS.trimEnd r) as [|d' r'] eqn:Er.
    + destruct (JS.is_space d); [discriminate | now rewrite IH].
    + now rewrite IH.
Qed.

Lemma trimStart_head (s : string) :
  JS.trimStart s = "" \/
  exists c rest, JS.trimStart s = String c rest /\ JS.is_space c = false.
Proof.
  induction s as [|c s IH]; [now left|].
  simpl. destruct (JS.is_space c) eqn:E; [exact IH|].
  right. now exists c, s.
Qed.

Lemma trimEnd_head (c : ascii) (rest : string) :
  JS.is_space c = false ->
  exists rest', JS.trimEnd (String c rest) = String c rest'.
Proof.
  intros E. cbn [JS.trimEnd].
  destruct (JS.trimEnd rest); [rewrite E|]; eauto.
Qed.

Lemma trim_idempotent (s : string) : JS.trim (JS.trim s) = JS.trim s.
Proof.
  unfold JS.trim.
  destruct (trimStart_head s) as [-> | (c & rest & -> & Ec)]; [reflexivity|].
  destruct (trimEnd_head c rest Ec) as (rest' & E).
  rewrite E at 1. cbn [JS.trimStart]. rewrite Ec, <- E.
  apply trimEnd_idempotent.
Qed.

Lemma step_user (e : Event) (w : World) : user (step e w) = user w.
Proof.
  destruct e as [|v| |i f]; simpl.
  - reflexivity.
  - now destruct (input_enabled w).
  - unfold sendMessage. now destruct (_ || _).
  - destruct (nth_error (inflight w) i) as [p|]; [|reflexivity].
    destruct p as [|m|a]; destruct f as [|new_id new_ts]; controller_code;
      try (destruct (select_error _); controller_code);
      try (destruct (entropy w); controller_code); reflexivity.
Qed.

Lemma run_user (es : list Event) (w : World) : user (run es w) = user w.
Proof.
  revert w. induction es as [|e es IH]; intros w; simpl; [reflexivity|].
  now rewrite IH, step_user.
Qed.

Lemma step_requests_ok (e : Event) (w : World) :
  Forall (request_ok (user w)) (calls w) ->
  Forall (request_ok (user w)) (calls (step e w)).
Proof.
  intros H. destruct e as [|v| |i f]; simpl.
  - controller_code. apply Forall_app. split; [exact H|].
    now repeat constructor.
  - now destruct (input_enabled w).
  - unfold sendMessage, JS.truthy.
    destruct (String.eqb_spec (JS.trim (input w)) "") as [E|E]; simpl;
      [exact H|].
    destruct (loading w); [exact H|]. controller_code.
    apply Forall_app. split; [exact H|].
    repeat constructor; [exact E | intros _; apply trim_idempotent].
  - destruct (nth_error (inflight w) i) as [p|]; [|exact H].
    destruct p as [|m|a]; destruct f as [|new_id new_ts]; controller_code;
      try (destruct (select_error _); controller_code);
      try (destruct (entropy w); controller_code); try exact H;
      (apply Forall_app; split; [exact H|]);
      repeat constructor; try apply reply_not_empty; discriminate.
Qed.

Lemma run_requests_ok (es : list Event) (w : World) :
  Forall (request_ok (user w)) (calls w) ->
  Forall (request_ok (user w)) (calls (run es w)).
Proof.
  revert w. induction es as [|e es IH]; intros w H; simpl; [exact H|].
  rewrite <- (step_user e w). apply IH. rewrite step_user.
  now apply step_requests_ok.
Qed.

(** Whatever happens after the first render, every request the component
    has sent to the store is well formed: an insertion carries the id of
    the signed-in user and a content that is not empty, and the text of a
    user message is trimmed. *)
Theorem every_request_is_well_formed
  (u : option string) (s : Store) (rnd : list Q) (es : list Event) :
  Forall (request_ok u) (calls (run es (initial u s rnd))).
Proof.
  apply (run_requests_ok es (initial u s rnd)). constructor.
Qed.

(** ** What the component does to the store *)





Lemma step_shows_stored (e : Event) (w : World) :
  incl (messages w) (stored w) -> incl (messages (step e w)) (stored (step e w)).
Proof.
  intros H. destruct e as [|v| |i f]; simpl.
  - exact H.
  - now destruct (input_enabled w).
  - unfold sendMessage. now destruct (_ || _).
  - destruct (nth_error (inflight w) i) as [p|]; [|exact H].
    unfold stored in *.
    destruct p as [|m|a]; destruct f as [|new_id new_ts]; controller_code;
      try (destruct (entropy w); controller_code); try exact H;
      try (cbn [store_insert rows]; rewrite map_app;
           apply incl_app; [now apply incl_appl | apply incl_appr, incl_refl]).
    all: intros x Hx; apply in_map_iff in Hx as (r & <- & Hr);
      apply in_map; now apply select_rows_visible in Hr.
Qed.

(** The message sequence only ever holds messages the store has confirmed:
    at any time, each message on screen is the message of a stored row. *)
Theorem only_stored_messages_are_shown
  (u : option string) (s : Store) (rnd : list Q) (es : list Event) :
  let w := run es (initial u s rnd) in
  forall m, In m (messages w) -> In m (stored w).
Proof.
  assert (forall w, incl (messages w) (stored w) ->
                    incl (messages (run es w)) (stored (run es w))) as G.
  { induction es as [|e es IH]; intros w H; simpl; [exact H|].
    now apply IH, step_shows_stored. }
  apply (G (initial u s rnd)). intros m [].
Qed.

(** ** Replies follow their message *)

Lemma replies_follow_snoc (prev : option Message) (l : list Message)
  (m : Message) :
  replies_follow prev (l ++ [m]) <->
  replies_follow prev l /\ reply_to (last_before prev l) m.
Proof.
  revert prev. induction l as [|x l IH]; intros prev; simpl.
  - tauto.
  - rewrite IH. tauto.
Qed.

Lemma last_before_snoc (prev : option Message) (l : list Message)
  (m : Message) :
  last_before prev (l ++ [m]) = Some m.
Proof.
  revert prev. induction l as [|x l IH]; intros prev; simpl;
    [reflexivity | apply IH].
Qed.

Lemma In_remove_nth {A} (i : nat) (l : list A) (x : A) :
  In x (remove_nth i l) -> In x l.
Proof.
  revert i. induction l as [|y l IH]; intros [|i]; simpl; try tauto.
  intros [->|H]; [now left | right; now apply (IH i)].
Qed.

(** Under single flight, the send that is answered was the only one. *)
Lemma no_send_left (l : list Pending) (i : nat) (p x : Pending) :
  nth_error l i = Some p -> is_send p = true ->
  List.length (filter is_send l) <= 1 ->
  In x (remove_nth i l) -> is_send x = false.
Proof.
  intros Hp Hs Hc Hx. rewrite (count_remove_nth l i p Hp), Hs in Hc.
  destruct (is_send x) eqn:E; [|reflexivity].
  assert (In x (filter is_send (remove_nth i l))) as F
    by (apply filter_In; now split).
  destruct (filter is_send (remove_nth i l)); [destruct F | simpl in Hc; lia].
Qed.

Lemma single_flight_le (w : World) :
  single_flight w -> List.length (filter is_send (inflight w)) <= 1.
Proof.
  unfold single_flight, outstanding_sends. intros ->.
  destruct (loading w); lia.
Qed.

Lemma paired_weaken (rows0 : list Row) (w w' : World) :
  rows (store w') = rows (store w) ->
  (forall a, In (AwaitSaveAssistant a) (inflight w') ->
             In (AwaitSaveAssistant a) (inflight w)) ->
  paired rows0 w -> paired rows0 w'.
Proof.
  intros Hr Hi (added & R & F & P). exists added.
  rewrite Hr. repeat split; [exact R | exact F |].
  intros a Ha. apply P, Hi, Ha.
Qed.

Lemma In_snoc_other (l : list Pending) (k x : Pending) :
  k <> x -> In x (l ++ [k]) -> In x l.
Proof.
  intros Hk H. apply in_app_or in H as [H | [H | []]];
    [exact H | contradiction].
Qed.

Lemma step_paired (rows0 : list Row) (e : Event) (w : World) :
  single_flight w -> paired rows0 w -> paired rows0 (step e w).
Proof.
  intros SF Pw. destruct e as [|v| |i f]; simpl.
  - apply (paired_weaken rows0 w); [reflexivity | | exact Pw].
    intros a. apply In_snoc_other. discriminate.
  - now destruct (input_enabled w).
  - unfold sendMessage. destruct (_ || _); [exact Pw|].
    apply (paired_weaken rows0 w); [reflexivity | | exact Pw].
    intros a. apply In_snoc_other. discriminate.
  - destruct (nth_error (inflight w) i) as [p|] eqn:E; [|exact Pw].
    pose proof (single_flight_le w SF) as C.
    destruct p as [|m|a]; destruct f as [|new_id new_ts].
    + apply (paired_weaken rows0 w); [reflexivity | | exact Pw].
      intros a. apply In_remove_nth.
    + apply (paired_weaken rows0 w); [reflexivity | | exact Pw].
      intros a. apply In_remove_nth.
    + apply (paired_weaken rows0 w); [reflexivity | | exact Pw].
      intros a. apply In_remove_nth.
    + destruct Pw as (added & R & F & P).
      exists (added ++ [mkRow (user w) (mkMessage new_id role_user m new_ts)])%list.
      controller_code.
      destruct (entropy w) as [|r rest]; controller_code;
        cbn [store_insert rows]; rewrite R, app_assoc, map_app;
        (split; [reflexivity|]);
        (split; [apply replies_follow_snoc; split; [exact F | exact I]|]);
        intros a Ha; cbn [map]; rewrite last_before_snoc;
        (apply in_app_or in Ha as [Ha | [Ha | []]];
         [ apply (no_send_left _ _ _ _ E eq_refl C) in Ha; discriminate
         | injection Ha as <-; eexists; repeat split; eexists; reflexivity ]).
    + apply (paired_weaken rows0 w); [reflexivity | | exact Pw].
      intros b. apply In_remove_nth.
    + destruct Pw as (added & R & F & P).
      destruct (P a (nth_error_In _ _ E)) as (q & Hq & Hrole & random & Ha).
      exists (added ++ [mkRow (user w)
                          (mkMessage new_id role_assistant a new_ts)])%list.
      controller_code. cbn [store_insert rows].
      rewrite R, app_assoc, map_app.
      split; [reflexivity|]. split.
      * apply replies_follow_snoc. split; [exact F|].
        rewrite Hq. unfold reply_to. cbn [role content map].
        split; [exact Hrole | now exists random].
      * intros b Hb.
        apply (no_send_left _ _ _ _ E eq_refl C) in Hb. discriminate.
Qed.

(** Among the rows a conversation adds to the store, every assistant reply
    comes directly after a user message, and it is a reply of the generator
    to the text of that very message: replies are never stored alone, twice,
    or against another message. *)
Theorem replies_follow_their_message
  (u : option string) (s : Store) (rnd : list Q) (es : list Event) :
  exists added,
    rows (store (run es (initial u s rnd))) = (rows s ++ added)%list /\
    replies_follow None (map message added).
Proof.
  assert (forall w, single_flight w -> paired (rows s) w ->
                    paired (rows s) (run es w)) as G.
  { induction es as [|e es IH]; intros w SF Pw; simpl; [exact Pw|].
    apply IH; [now apply step_single_flight | now apply step_paired]. }
  destruct (G (initial u s rnd)) as (added & R & F & _).
  - reflexivity.
  - exists []. simpl. rewrite app_nil_r. repeat split. intros a [].
  - now exists added.
Qed.

(** ** The loading flags *)

Lemma In_remove_nth_other {A} (i : nat) (l : list A) (p x : A) :
  nth_error l i = Some p -> p <> x -> In x l -> In x (remove_nth i l).
Proof.
  revert i. induction l as [|y l IH]; intros [|i] Hp Hne Hx; simpl in *;
    try discriminate.
  - injection Hp as ->. destruct Hx as [->|Hx]; [contradiction | exact Hx].
  - destruct Hx as [->|Hx]; [now left | right; now apply (IH i)].
Qed.

Lemma step_load_pending (e : Event) (w : World) :
  (loadingMessages w = true -> In AwaitLoad (inflight w)) ->
  loadingMessages (step e w) = true -> In AwaitLoad (inflight (step e w)).
Proof.
  intros H. destruct e as [|v| |i f]; simpl.
  - intros _. apply in_or_app. right. now left.
  - now destruct (input_enabled w).
  - unfold sendMessage. destruct (_ || _); [exact H|]. controller_code.
    intros Hl. apply in_or_app. left. now apply H.
  - destruct (nth_error (inflight w) i) as [p|] eqn:E; [|exact H].
    destruct p as [|m|a]; destruct f as [|new_id new_ts]; controller_code;
      try (destruct (entropy w); controller_code);
      try discriminate; intros Hl;
      try (apply in_or_app; left);
      (apply (In_remove_nth_other _ _ _ _ E); [discriminate | now apply H]).
Qed.

Lemma run_load_pending (es : list Event) (w : World) :
  (loadingMessages w = true -> In AwaitLoad (inflight w)) ->
  loadingMessages (run es w) = true -> In AwaitLoad (inflight (run es w)).
Proof.
  revert w. induction es as [|e es IH]; intros w H; simpl; [exact H|].
  now apply IH, step_load_pending.
Qed.

(** Once the component has mounted, a loading flag is set only while the
    call that will reset it is suspended on the store: the loading screen
    while the select is pending, the typing state while a send is. So when
    every call has been answered, failed or not, neither flag is set. *)
Theorem flags_set_only_while_a_call_is_pending
  (u : option string) (s : Store) (rnd : list Q) (es : list Event) :
  let w := run (Mount :: es) (initial u s rnd) in
  (loadingMessages w = true -> In AwaitLoad (inflight w)) /\
  (loading w = true -> outstanding_sends w = 1) /\
  (inflight w = [] -> loadingMessages w = false /\ loading w = false).
Proof.
  intros w.
  assert (loadingMessages w = true -> In AwaitLoad (inflight w)) as L.
  { subst w. cbn [run]. apply run_load_pending. intros _. now left. }
  assert (single_flight w) as SF by (apply run_single_flight; reflexivity).
  unfold single_flight in SF. repeat split.
  - exact L.
  - intros Hl. now rewrite Hl in SF.
  - destruct (loadingMessages w); [|reflexivity].
    rewrite H in L. destruct (L eq_refl).
  - unfold outstanding_sends in SF. rewrite H in SF. simpl in SF.
    destruct (loading w); [discriminate | reflexivity].
Qed.

(** [loadingMessages] is never set again. *)
Lemma step_loadingMessages (e : Event) (w : World) :
  loadingMessages (step e w) = true -> loadingMessages w = true.
Proof.
  destruct e as [|v| |i f]; simpl.
  - tauto.
  - now destruct (input_enabled w).
  - unfold sendMessage. now destruct (_ || _).
  - destruct (nth_error (inflight w) i) as [p|]; [|tauto].
    destruct p as [|m|a]; destruct f as [|new_id new_ts]; controller_code;
      try (destruct (entropy w); controller_code); tauto || discriminate.
Qed.

Lemma step_idle_until_loaded (s : Store) (e : Event) (w : World) :
  idle_until_loaded s w -> idle_until_loaded s (step e w).
Proof.
  unfold idle_until_loaded. intros H Hl'.
  pose proof (step_loadingMessages e w Hl') as Hl.
  destruct (H Hl) as (Hi & Hm & Hld & Hs & Ht & Hp & Hc).
  destruct e as [|v| |i f].
  - simpl. controller_code.
    repeat split; try assumption; apply Forall_app; split; try assumption;
      now repeat constructor.
  - simpl. unfold input_enabled. rewrite Hl. simpl. now repeat split.
  - simpl. rewrite sendMessage_rejected by (left; now rewrite Hi).
    now repeat split.
  - simpl in *. destruct (nth_error (inflight w) i) as [p|] eqn:E;
      [|now repeat split].
    rewrite Forall_forall in Hp.
    rewrite (Hp p (nth_error_In _ _ E)) in Hl'.
    destruct f; revert Hl'; controller_code; discriminate.
Qed.

Lemma run_idle_until_loaded (s : Store) (es : list Event) (w : World) :
  idle_until_loaded s w -> idle_until_loaded s (run es w).
Proof.
  revert w. induction es as [|e es IH]; intros w H; simpl; [exact H|].
  now apply IH, step_idle_until_loaded.
Qed.

(** Until the first load has been answered the component shows the loading
    screen and nothing can be typed or sent: the sequence is empty, the
    store is untouched and has been asked nothing but the select, no toast
    is up, and a change of the input or a submit leaves the state as it
    is. *)
Theorem nothing_happens_before_the_load
  (u : option string) (s : Store) (rnd : list Q) (es : list Event) :
  let w := run es (initial u s rnd) in
  loadingMessages w = true ->
  render w = LoadingMessagesScreen /\
  messages w = [] /\ input w = "" /\ toasts w = [] /\ store w = s /\
  Forall (fun q => q = SelectOrdered) (calls w) /\
  step Submit w = w /\ (forall v, step (Change v) w = w).
Proof.
  intros w Hl.
  assert (idle_until_loaded s w) as H.
  { apply run_idle_until_loaded. intros _. now repeat split. }
  destruct (H Hl) as (Hi & Hm & Hld & Hs & Ht & Hp & Hc).
  unfold render. rewrite Hl. repeat split; try assumption.
  - apply sendMessage_rejected. left. now rewrite Hi.
  - intros v. simpl. unfold input_enabled. now rewrite Hl.
Qed.

Lemma nothing_happens_before_the_load_witness :
  let w := run [Mount; Change "hello"; Submit]
             (initial (Some "u1") (open_store []) []) in
  loadingMessages w = true /\ input w = "" /\ calls w = [SelectOrdered].
Proof.
  intros w.
  assert (Hl : loadingMessages w = true) by reflexivity.
  destruct (nothing_happens_before_the_load (Some "u1") (open_store []) []
              [Mount; Change "hello"; Submit] Hl) as (_ & _ & Hi & _).
  split; [exact Hl | split; [exact Hi | reflexivity]].
Defined.

(** ** Notifications *)

Lemma step_quiet (e : Event) (w : World) :
  no_fault e = true ->
  toasts (step e w) = toasts w /\ console (step e w) = console w.
Proof.
  intros H. destruct e as [|v| |i f]; simpl.
  - now split.
  - now destruct (input_enabled w).
  - unfold sendMessage. now destruct (_ || _).
  - destruct f as [|new_id new_ts]; [discriminate|].
    destruct (nth_error (inflight w) i) as [p|]; [|now split].
    destruct p as [|m|a]; controller_code;
      try (destruct (entropy w); controller_code); now split.
Qed.

(** As long as the store fails no call, no toast is raised and nothing is
    logged as an error, whatever the user does. *)
Theorem no_toast_without_a_failure (es : list Event) (w : World) :
  forallb no_fault es = true ->
  toasts (run es w) = toasts w /\ console (run es w) = console w.
Proof.
  revert w. induction es as [|e es IH]; intros w H; simpl in *; [now split|].
  apply andb_prop in H as [He Hes].
  destruct (IH (step e w) Hes) as [-> ->]. now apply step_quiet.
Qed.

Lemma no_toast_without_a_failure_witness :
  toasts (run [Mount; Resolve 0 (Served "" ""); Change "Hello"; Submit;
               Resolve 0 (Served "m1" "t1"); Resolve 0 (Served "m2" "t2")]
            (initial (Some "u1") (open_store []) [])) = [].
Proof.
  exact (proj1 (no_toast_without_a_failure
                  [Mount; Resolve 0 (Served "" ""); Change "Hello"; Submit;
                   Resolve 0 (Served "m1" "t1"); Resolve 0 (Served "m2" "t2")]
                  (initial (Some "u1") (open_store []) []) eq_refl)).
Defined.

(** ** What is rendered, against what the handlers do *)

Lemma accepted_send_changes_calls (w : World) :
  JS.trim (input w) <> "" -> loading w = false -> step Submit w <> w.
Proof.
  intros Ht Hl E. apply (f_equal (fun x => List.length (calls x))) in E.
  rewrite (run_send_started w Ht Hl) in E. cbn [calls] in E.
  rewrite length_app in E. simpl in E. lia.
Qed.

(** The send button is disabled exactly when a submit would be dropped:
    what the user sees as not clickable is what [sendMessage] rejects. *)
Theorem button_disabled_iff_submit_dropped (w : World) (c : Chat) :
  render w = ChatScreen c ->
  (button_disabled c = true <-> step Submit w = w).
Proof.
  unfold render. destruct (loadingMessages w); [discriminate|].
  intros E. injection E as <-. cbn [button_disabled]. unfold JS.truthy.
  destruct (loading w) eqn:Hl; simpl.
  - split; [intros _|reflexivity].
    apply sendMessage_rejected. now right.
  - destruct (String.eqb_spec (JS.trim (input w)) "") as [Ht|Ht]; simpl.
    + split; [intros _|reflexivity]. apply sendMessage_rejected. now left.
    + split; [discriminate|]. intros E.
      now destruct (accepted_send_changes_calls w Ht Hl).
Qed.

Lemma button_disabled_iff_submit_dropped_witness :
  let w := mkWorld [] "   " false false (Some "u1") [] []
             (open_store []) [] [] [] in
  exists c, render w = ChatScreen c /\ button_disabled c = true /\
            input_disabled c = false /\ step Submit w = w.
Proof.
  intros w. eexists. split; [reflexivity|]. split; [reflexivity|].
  split; [reflexivity|].
  apply (proj1 (button_disabled_iff_submit_dropped w _ eq_refl)).
  reflexivity.
Defined.

(** On the chat screen the typing indicator is shown, and the input
    disabled, exactly while a send is suspended on the store. *)
Theorem typing_indicator_iff_send_in_flight
  (u : option string) (s : Store) (rnd : list Q) (es : list Event) (c : Chat) :
  let w := run es (initial u s rnd) in
  render w = ChatScreen c ->
  (typing_indicator c = true <-> outstanding_sends w = 1) /\
  (input_disabled c = true <-> outstanding_sends w = 1).
Proof.
  intros w.
  assert (single_flight w) as SF by (apply run_single_flight; reflexivity).
  unfold single_flight in SF. unfold render.
  destruct (loadingMessages w); [discriminate|].
  intros E. injection E as <-. cbn [typing_indicator input_disabled].
  rewrite SF. destruct (loading w); split; split; congruence.
Qed.

Lemma typing_indicator_iff_send_in_flight_witness :
  let es := [Mount; Resolve 0 (Served "" ""); Change "Hello"; Submit] in
  let w := run es (initial (Some "u1") (open_store []) []) in
  exists c, render w = ChatScreen c /\ typing_indicator c = true /\
            outstanding_sends w = 1.
Proof.
  intros es w.
  assert (Hr : render w = ChatScreen (mkChat Placeholder true "" true true))
    by (vm_compute; reflexivity).
  exists (mkChat Placeholder true "" true true).
  split; [exact Hr|]. split; [reflexivity|].
  apply (proj1 (typing_indicator_iff_send_in_flight (Some "u1")
                  (open_store []) [] es _ Hr)).
  reflexivity.
Defined.

Lemma sendMessage_idempotent (w : World) :
  sendMessage (sendMessage w) = sendMessage w.
Proof.
  unfold sendMessage at 2 3.
  destruct (negb (JS.truthy (JS.trim (input w))) || loading w) eqn:G.
  - unfold sendMessage. now rewrite G.
  - apply sendMessage_rejected. now right.
Qed.

(** A second submit before the store has answered is dropped, whether it
    comes from the button or from the keyboard; and of all key presses
    only Enter without Shift submits (and has its default prevented). *)
Theorem repeated_submit_is_dropped (w : World) (e : KeyboardEvent) :
  step Submit (step Submit w) = step Submit w /\
  snd (handleKeyPress e (step Submit w)) = step Submit w /\
  snd (handleKeyPress e (snd (handleKeyPress e w))) = snd (handleKeyPress e w) /\
  (key e <> "Enter" \/ shiftKey e = true ->
   handleKeyPress e w = (false, w)) /\
  (key e = "Enter" -> shiftKey e = false ->
   handleKeyPress e w = (true, step Submit w)).
Proof.
  unfold handleKeyPress. cbn [step].
  repeat split.
  - apply sendMessage_idempotent.
  - destruct (_ && _); cbn [snd];
      [apply sendMessage_idempotent | reflexivity].
  - destruct ((key e =? "Enter") && negb (shiftKey e)) eqn:G; cbn [snd];
      rewrite ?G; cbn [snd]; [apply sendMessage_idempotent | reflexivity].
  - intros [H|H].
    + apply String.eqb_neq in H. now rewrite H.
    + rewrite H. now rewrite andb_false_r.
  - intros H1 H2. apply String.eqb_eq in H1. now rewrite H1, H2.
Qed.

Lemma repeated_submit_is_dropped_witness :
  let w := mkWorld [] "Hello" false false (Some "u1") [] []
             (open_store []) [] [] [] in
  handleKeyPress (mkKeyboardEvent "Enter" true) w = (false, w) /\
  calls (snd (handleKeyPress (mkKeyboardEvent "Enter" false)
                (snd (handleKeyPress (mkKeyboardEvent "Enter" false) w))))
  = [Insert (Some "u1") role_user "Hello"].
Proof.
  intros w.
  destruct (repeated_submit_is_dropped w (mkKeyboardEvent "Enter" true))
    as (_ & _ & _ & H & _).
  split; [apply H; now right | reflexivity].
Defined.

(** ** A reload shows what was sent *)

Lemma In_loaded (s : Store) (u : option string) (r : Row) :
  In r (rows s) -> visible s u r = true ->
  In (message r) (map message (select_rows s u)).
Proof.
  intros Hr Hv. apply in_map, select_rows_visible. now split.
Qed.

(** A message that a send has stored is in the sequence again after a
    reload, provided the store lets the session read its own rows: the
    user message even if the reply could not be stored, and the reply
    when it was. After a send whose reply failed, the reload shows one
    message more than a load before the send would have. *)
Theorem sent_messages_survive_reload
  (w : World) (id1 t1 id2 t2 i t : string) :
  JS.trim (input w) <> "" -> loading w = false ->
  (forall m, visible (store w) (user w) (mkRow (user w) m) = true) ->
  let n := List.length (inflight w) in
  let reload := [Mount; Resolve n (Served i t)] in
  let w_both := run ([Submit; Resolve n (Served id1 t1);
                      Resolve n (Served id2 t2)] ++ reload) w in
  let w_half := run ([Submit; Resolve n (Served id1 t1);
                      Resolve n Fault] ++ reload) w in
  In (user_message w id1 t1) (messages w_both) /\
  In (assistant_message w id2 t2) (messages w_both) /\
  In (user_message w id1 t1) (messages w_half) /\
  List.length (messages w_half) =
    S (List.length (select_rows (store w) (user w))).
Proof.
  intros Ht Hl Hv n reload w_both w_half. subst n reload w_both w_half.
  rewrite !run_app.
  rewrite (run_send_both_served w id1 t1 id2 t2 Ht Hl).
  rewrite (run_send_second_fault w id1 t1 Ht Hl).
  match goal with
  | |- context [run _ ?x] =>
      change (List.length (inflight w)) with (List.length (inflight x));
      rewrite (run_load_served x)
  end.
  match goal with
  | |- context [run _ ?x] =>
      change (List.length (inflight w)) with (List.length (inflight x));
      rewrite (run_load_served x)
  end.
  cbn [messages store user].
  repeat split.
  - apply (In_loaded _ _ (mkRow (user w) (user_message w id1 t1)));
      [|apply Hv].
    cbn [store_insert rows]. rewrite <- app_assoc.
    apply in_or_app. right. now left.
  - apply (In_loaded _ _ (mkRow (user w) (assistant_message w id2 t2)));
      [|apply Hv].
    cbn [store_insert rows]. apply in_or_app. right. now left.
  - apply (In_loaded _ _ (mkRow (user w) (user_message w id1 t1)));
      [|apply Hv].
    cbn [store_insert rows]. apply in_or_app. right. now left.
  - rewrite length_map. unfold select_rows.
    rewrite !(Permutation_length (order_by_perm _ _)).
    cbn [store_insert rows visible]. rewrite filter_app, length_app.
    cbn [filter]. rewrite Hv. simpl. lia.
Qed.

Lemma sent_messages_survive_reload_witness :
  let w := mkWorld [] "Hello" false false (Some "u1") [] []
             (owner_only_store []) [] [] [] in
  In (mkMessage "m1" role_user "Hello" "t1")
     (messages (run ([Submit; Resolve 0 (Served "m1" "t1"); Resolve 0 Fault]
                     ++ [Mount; Resolve 0 (Served "" "")]) w)).
Proof.
  intros w.
  assert (Ht : JS.trim (input w) <> "") by (vm_compute; discriminate).
  assert (Hv : forall m,
             visible (store w) (user w) (mkRow (user w) m) = true)
    by (intros m; reflexivity).
  destruct (sent_messages_survive_reload w "m1" "t1" "m2" "t2" "" ""
              Ht eq_refl Hv) as (_ & _ & H & _).
  exact H.
Defined.

(** ** Keys of the rendered list *)

(** Dropping rows keeps the identifiers of the others distinct. *)
Lemma filter_keeps_ids_distinct (keep : Row -> bool) (l : list Row) :
  NoDup (ids (map message l)) ->
  NoDup (ids (map message (filter keep l))).
Proof.
  unfold ids. induction l as [|r l IH]; intros D; [constructor|].
  cbn [map] in D. apply NoDup_cons_iff in D as [Fresh D].
  cbn [filter]. destruct (keep r); [|exact (IH D)].
  cbn [map]. apply NoDup_cons; [|exact (IH D)].
  contradict Fresh.
  rewrite map_map in *. apply in_map_iff in Fresh as (r' & E & Hr').
  apply filter_In in Hr' as [Hr' _].
  rewrite <- E. now apply (in_map (fun x => id (message x))).
Qed.

Lemma NoDup_snoc {A} (l : list A) (x : A) :
  NoDup l -> ~ In x l -> NoDup (l ++ [x]).
Proof.
  intros Hl Hx. apply NoDup_app; [exact Hl | repeat constructor; tauto |].
  intros y Hy [<- | []]. contradiction.
Qed.

Lemma select_ids_distinct (s : Store) (u : option string) :
  NoDup (ids (map message (rows s))) ->
  NoDup (ids (map message (select_rows s u))).
Proof.
  intros H. unfold select_rows.
  apply (filter_keeps_ids_distinct (visible s u)) in H.
  eapply Permutation_NoDup; [|exact H].
  unfold ids. symmetry. apply Permutation_map, Permutation_map, order_by_perm.
Qed.

Lemma step_distinct_ids (e : Event) (w : World) :
  fresh_ids [e] w ->
  NoDup (ids (stored w)) /\ NoDup (ids (messages w)) /\
    incl (messages w) (stored w) ->
  NoDup (ids (stored (step e w))) /\ NoDup (ids (messages (step e w))).
Proof.
  intros [Hf _] (Hs & Hm & Hi).
  assert (forall new_id r c t,
            ~ In new_id (ids (stored w)) ->
            NoDup (ids (stored w ++ [mkMessage new_id r c t])) /\
            NoDup (ids (messages w ++ [mkMessage new_id r c t]))) as Add.
  { intros new_id r c t Hn. unfold ids in *. rewrite !map_app. simpl.
    split; apply NoDup_snoc; try assumption.
    intros Hin. apply Hn. apply in_map_iff in Hin as (m & E & Hin).
    apply in_map_iff. exists m. split; [exact E | now apply Hi]. }
  destruct e as [|v| |i f]; simpl in *.
  - now split.
  - destruct (input_enabled w); now split.
  - unfold sendMessage. destruct (_ || _); now split.
  - destruct (nth_error (inflight w) i) as [p|]; [|now split].
    unfold stored in *.
    destruct p as [|m|a]; destruct f as [|new_id new_ts]; controller_code;
      try (destruct (entropy w); controller_code);
      cbn [store_insert rows]; rewrite ?map_app; simpl;
      try (now split); try (now apply Add).
    all: split; [exact Hs | now apply select_ids_distinct].
Qed.

(** If the rows of the store have distinct identifiers and the store gives
    each insertion an identifier no row has yet, the messages in the
    sequence always have distinct identifiers: the keys of the rendered
    list never clash. *)
Theorem rendered_keys_are_distinct
  (u : option string) (s : Store) (rnd : list Q) (es : list Event) :
  NoDup (ids (map message (rows s))) ->
  fresh_ids es (initial u s rnd) ->
  let w := run es (initial u s rnd) in
  NoDup (ids (messages w)) /\
  (forall c l, render w = ChatScreen c -> area c = Bubbles l ->
               NoDup (map bubble_key l)).
Proof.
  intros Hs Hf w.
  assert (forall w0, fresh_ids es w0 ->
            NoDup (ids (stored w0)) /\ NoDup (ids (messages w0)) /\
              incl (messages w0) (stored w0) ->
            NoDup (ids (messages (run es w0)))) as G.
  { clear. induction es as [|e es IH]; intros w0 Hf (H1 & H2 & H3); simpl;
      [exact H2|].
    destruct Hf as [Hf Hf'].
    destruct (step_distinct_ids e w0 (conj Hf I) (conj H1 (conj H2 H3)))
      as [H1' H2'].
    apply IH; [exact Hf'|]. repeat split; try assumption.
    now apply step_shows_stored. }
  assert (NoDup (ids (messages w))) as N.
  { apply G; [exact Hf|]. repeat split; [exact Hs | constructor |].
    intros m []. }
  split; [exact N|].
  intros c l. unfold render. destruct (loadingMessages w); [discriminate|].
  intros E. injection E as <-. cbn [area].
  destruct (List.length (messages w) =? 0)%nat; [discriminate|].
  intros E. injection E as <-. rewrite map_map.
  erewrite map_ext; [exact N|].
  intros m. unfold render_message. now destruct (role m).
Qed.

Lemma rendered_keys_are_distinct_witness :
  let s := open_store [mkRow (Some "u1") (mkMessage "a" role_user "x" "t0")] in
  let es := [Mount; Resolve 0 (Served "" ""); Change "Hello"; Submit;
             Resolve 0 (Served "b" "t1"); Resolve 0 (Served "c" "t2")] in
  NoDup (ids (messages (run es (initial (Some "u1") s [])))).
Proof.
  intros s es.
  assert (Hs : NoDup (ids (map message (rows s))))
    by (repeat constructor; simpl; tauto).
  assert (Hf : fresh_ids es (initial (Some "u1") s [])).
  { simpl. repeat split; try exact I; intros H; simpl in H;
      repeat (destruct H as [H|H]; [discriminate|]); exact H. }
  exact (proj1 (rendered_keys_are_distinct (Some "u1") s [] es Hs Hf)).
Defined.

(** ** Mounting *)



(** ** The sequence after the load *)

Lemma step_appends (e : Event) (w : World) :
  not_mount e = true -> ~ In AwaitLoad (inflight w) ->
  ~ In AwaitLoad (inflight (step e w)) /\
  exists tail, messages (step e w) = (messages w ++ tail)%list /\
               List.length tail <= 1.
Proof.
  intros Hm Hn.
  assert (exists tail, messages w = (messages w ++ tail)%list /\
                       List.length tail <= 1) as Same
    by (exists []; rewrite app_nil_r; simpl; split; [reflexivity | lia]).
  destruct e as [|v| |i f]; simpl in *.
  - discriminate.
  - destruct (input_enabled w); now split.
  - unfold sendMessage. destruct (_ || _); [now split|]. controller_code.
    split; [|exact Same].
    intros H. apply in_app_or in H as [H | [H | []]];
      [contradiction | discriminate].
  - destruct (nth_error (inflight w) i) as [p|] eqn:E; [|now split].
    assert (~ In AwaitLoad (remove_nth i (inflight w))) as Hr
      by (intros H; apply Hn; now apply In_remove_nth in H).
    destruct p as [|m|a].
    + destruct Hn. now apply nth_error_In in E.
    + destruct f as [|new_id new_ts].
      * controller_code. split; [exact Hr | exact Same].
      * controller_code. destruct (entropy w); controller_code;
          (split;
           [ intros H; apply in_app_or in H as [H | [H | []]];
             [contradiction | discriminate]
           | eexists; split; [reflexivity | simpl; lia] ]).
    + destruct f as [|new_id new_ts].
      * controller_code. split; [exact Hr | exact Same].
      * controller_code. split; [exact Hr|].
        eexists; split; [reflexivity | simpl; lia].
Qed.

(** Once the load is done and as long as the component is not mounted
    again, the sequence only grows at its end: whatever is typed, sent,
    served or failed, the messages already shown keep their content and
    their place, and at most one message is appended per event. *)
Theorem sequence_only_grows_after_load (es : list Event) (w : World) :
  forallb not_mount es = true -> ~ In AwaitLoad (inflight w) ->
  exists tail,
    messages (run es w) = (messages w ++ tail)%list /\
    List.length tail <= List.length es.
Proof.
  revert w. induction es as [|e es IH]; intros w Hm Hn; simpl in *.
  - exists []. rewrite app_nil_r. split; [reflexivity | simpl; lia].
  - apply andb_prop in Hm as [He Hes].
    destruct (step_appends e w He Hn) as (Hn' & t1 & E1 & L1).
    destruct (IH (step e w) Hes Hn') as (t2 & E2 & L2).
    exists (t1 ++ t2)%list. rewrite E2, E1, app_assoc, length_app.
    split; [reflexivity | lia].
Qed.

Lemma sequence_only_grows_after_load_witness :
  let old := mkMessage "a" role_user "earlier" "t0" in
  let w := mkWorld [old] "Hello" false false (Some "u1") [] []
             (open_store [mkRow (Some "u1") old]) [SelectOrdered] [] [] in
  exists tail,
    messages (run [Submit; Resolve 0 (Served "b" "t1"); Resolve 0 Fault] w)
    = (old :: tail)%list.
Proof.
  intros old w.
  destruct (sequence_only_grows_after_load
              [Submit; Resolve 0 (Served "b" "t1"); Resolve 0 Fault] w
              eq_refl (fun H : In AwaitLoad [] => H))
    as (tail & E & _).
  exists tail. exact E.
Defined.

Lemma flags_set_only_while_a_call_is_pending_witness :
  let es := [Resolve 0 Fault; Change "Hello"; Submit; Resolve 0 Fault] in
  let w := run (Mount :: es) (initial (Some "u1") (open_store []) []) in
  inflight w = [] /\ loadingMessages w = false /\ loading w = false.
Proof.
  intros es w.
  destruct (flags_set_only_while_a_call_is_pending (Some "u1")
              (open_store []) [] es) as (_ & _ & H).
  split; [reflexivity | exact (H eq_refl)].
Defined.

Lemma only_stored_messages_are_shown_witness :
  let es := [Mount; Resolve 0 (Served "" ""); Change "Hello"; Submit;
             Resolve 0 (Served "m1" "t1")] in
  let w := run es (initial (Some "u1") (open_store []) []) in
  In (mkMessage "m1" role_user "Hello" "t1") (stored w).
Proof.
  intros es w.
  apply (only_stored_messages_are_shown (Some "u1") (open_store []) [] es).
  now left.
Defined.
